(** * sendMention: mention offsets and the MQTT request/acknowledgment correlator

    A shallow embedding of [sendMention], [buildMentionData],
    [publishWithAck], [handleRes] and [extractIdsFromPayload] of
    src/includes/h/Extra/ExtraUptimeRobot.js (second module of the file),
    with the properties the specification states about them.

    Conventions of the embedding.
    - A JavaScript string is the Rocq [string] of its code units; the
      embedding covers strings whose code units are below 256, where
      [toLowerCase], [trim] and the case-insensitive regular expressions of
      the source are given by the tables below.
    - Indices and lengths are [Z]: the source compares them with [-1] and
      with [0] and feeds caller-supplied integers ([fromIndex]) into them.
    - Calls on the transport, on the logger, on the caller's callback and on
      the promise are recorded, in program order, as a list of [effect]s. *)

From Stdlib Require Import ZArith List Bool String Ascii Lia DecimalString SpecFloat.
Import ListNotations.

Local Open Scope string_scope.
Local Open Scope list_scope.
Local Open Scope Z_scope.

(** ** String primitives of the host *)

Module Js.

Definition code (c : ascii) : Z := Z.of_N (N_of_ascii c).

Definition chr (z : Z) : ascii := ascii_of_N (Z.to_N z).

(** [s.length] *)
Definition len (s : string) : Z := Z.of_nat (String.length s).

(** White space and line terminators removed by [String.prototype.trim]:
    TAB, LF, VT, FF, CR, SP and NBSP are the ones below 256. *)
Definition is_white (c : ascii) : bool :=
  let n := code c in
  ((9 <=? n) && (n <=? 13)) || (n =? 32) || (n =? 160).

Fixpoint trimStart (s : string) : string :=
  match s with
  | String c r => if is_white c then trimStart r else s
  | EmptyString => EmptyString
  end.

Fixpoint trimEnd (s : string) : string :=
  match s with
  | EmptyString => EmptyString
  | String c r =>
      match trimEnd r with
      | EmptyString => if is_white c then EmptyString else String c EmptyString
      | r' => String c r'
      end
  end.

(** [s.trim()] *)
Definition trim (s : string) : string := trimEnd (trimStart s).

(** [s] without its leading at-signs: the replacement of [/^@+/] by the
    empty string. *)
Fixpoint strip_ats (s : string) : string :=
  match s with
  | String "@" r => strip_ats r
  | _ => s
  end.

(** [s.startsWith(p)] *)
Definition startsWith (s p : string) : bool := String.prefix p s.

(** Clamping of a position argument to [0 .. s.length], as [indexOf] and
    [substring] do. *)
Definition clamp (s : string) (pos : Z) : nat :=
  Z.to_nat (Z.min (Z.max pos 0) (len s)).

(** [s.indexOf(search, pos)]: the first index at or after the clamped
    position where [search] occurs, or [-1]. *)
Definition indexOf (s search : string) (pos : Z) : Z :=
  match String.index (clamp s pos) search s with
  | Some k => Z.of_nat k
  | None => -1
  end.

(** Last index of an occurrence of [search] in [s], scanning from the
    left and remembering the latest hit; [k] is the index of the head of
    [s] in the whole string. *)
Fixpoint lastIndex_from (k : Z) (search s : string) (found : Z) : Z :=
  let found' := if String.prefix search s then k else found in
  match s with
  | EmptyString => found'
  | String _ r => lastIndex_from (k + 1) search r found'
  end.

(** [s.lastIndexOf(search)] *)
Definition lastIndexOf (s search : string) : Z :=
  lastIndex_from 0 search s (-1).

(** [s.substring(start)] *)
Definition substring_from (s : string) (start : Z) : string :=
  let n := clamp s start in
  String.substring n (String.length s - n) s.

(** Case mapping below 256: A-Z and the letters U+00C0..U+00DE (without
    the multiplication sign U+00D7) have a lower-case partner 32 above. *)
Definition is_upper (c : ascii) : bool :=
  let n := code c in
  ((65 <=? n) && (n <=? 90))
  || ((192 <=? n) && (n <=? 222) && negb (n =? 215)).

Definition lower_char (c : ascii) : ascii :=
  if is_upper c then chr (code c + 32) else c.

(** [s.toLowerCase()] *)
Fixpoint toLowerCase (s : string) : string :=
  match s with
  | EmptyString => EmptyString
  | String c r => String (lower_char c) (toLowerCase r)
  end.

(** Two code units match under the [i] flag when their canonical forms
    agree; below 256 that is equality after [lower_char]. *)
Definition ci_eq (a b : ascii) : bool :=
  Ascii.eqb (lower_char a) (lower_char b).

(** [\w] of a regular expression without the [u] flag. *)
Definition is_word (c : ascii) : bool :=
  let n := code c in
  ((48 <=? n) && (n <=? 57)) || ((65 <=? n) && (n <=? 90))
  || ((97 <=? n) && (n <=? 122)) || (n =? 95).

Definition is_word_opt (c : option ascii) : bool :=
  match c with Some c => is_word c | None => false end.

Definition head (s : string) : option ascii :=
  match s with String c _ => Some c | EmptyString => None end.

(** [\b] between the previous character and the rest of the input. *)
Definition boundary (prev : option ascii) (rest : string) : bool :=
  negb (Bool.eqb (is_word_opt prev) (is_word_opt (head rest))).

(** The literal [lit] followed by [\b], matched at the head of [h]. *)
Fixpoint match_literal (lit : string) (prev : option ascii) (h : string) : bool :=
  match lit with
  | EmptyString => boundary prev h
  | String a lit' =>
      match h with
      | String c r => ci_eq a c && match_literal lit' (Some c) r
      | EmptyString => false
      end
  end.

(** First index where [\b<lit>\b] matches in [h] under the [i] flag; [k]
    is the index of the head of [h] and [prev] the character before it. *)
Fixpoint word_search_from (k : Z) (lit : string) (prev : option ascii) (h : string)
  : option Z :=
  if boundary prev h && match_literal lit prev h then Some k
  else match h with
       | EmptyString => None
       | String c r => word_search_from (k + 1) lit (Some c) r
       end.

(** [h.match(new RegExp("\\b" + escape(lit) + "\\b", "i"))]: the [index]
    of the match, if any. The source escapes every metacharacter of
    [lit], so the pattern is the literal between two word boundaries. *)
Definition word_match (lit h : string) : option Z :=
  word_search_from 0 lit None h.

(** [String(n)] of an integer printed in decimal notation. *)
Definition of_int (z : Z) : string := NilZero.string_of_int (Z.to_int z).

(** [xs.join(sep)] *)
Definition join (sep : string) (xs : list string) : string :=
  String.concat sep xs.

End Js.

(** ** buildMentionData *)

(** One entry of [msg.mentions]. [tag] is [m.tag] and [id] is [m.id]
    (the empty string when absent); [fromIndex] is present when
    [Number.isInteger(m.fromIndex)] holds. *)
Record mention := Mention {
  tag : string;
  id : string;
  fromIndex : option Z
}.

(** The [mentions] property of a message. *)
Inductive mentions_field :=
| MentionsAbsent                        (* no such property *)
| MentionsFalsy                         (* null, undefined, 0, false *)
| MentionsNotArray                      (* a truthy value that is no array *)
| MentionsArray (l : list mention).

Record mention_data := MentionData {
  mention_ids : string;
  mention_offsets : string;
  mention_lengths : string;
  mention_types : string
}.

(** The four arrays and the cursor of the loop, and the warnings logged. *)
Record build_state := BuildState {
  ids : list string;
  offsets : list Z;
  lengths : list Z;
  types : list string;
  cursor : Z;
  warnings : list string
}.

Definition build_init : build_state := BuildState [] [] [] [] 0 [].

(** [String(m.tag).trim()] for a tag that is a string; a missing tag is
    the empty string. *)
Definition raw_of (m : mention) : string := Js.trim (tag m).

(** [raw] without its leading at-signs, trimmed again. *)
Definition name_of (m : mention) : string := Js.trim (Js.strip_ats (raw_of m)).

(** [Number.isInteger(m.fromIndex) ? m.fromIndex : cursor] *)
Definition start_of (m : mention) (cur : Z) : Z :=
  match fromIndex m with Some i => i | None => cur end.

(** The four forward strategies, each a conditional that updates the pair
    [(idx, adj)]. *)

(** Strategy 1: exact match with the at-sign. *)
Definition strategy1 (base raw name : string) (start : Z) (r : Z * Z) : Z * Z :=
  if Js.startsWith raw "@" then
    let idx := Js.indexOf base raw start in
    if negb (idx =? -1) then (idx, Js.len raw - Js.len name) else (idx, snd r)
  else r.

(** Strategy 2: exact match of the name only. *)
Definition strategy2 (base name : string) (start : Z) (r : Z * Z) : Z * Z :=
  if fst r =? -1 then (Js.indexOf base name start, 0) else r.

(** Strategy 3: search without case. *)
Definition strategy3 (base name : string) (start : Z) (r : Z * Z) : Z * Z :=
  if fst r =? -1
  then (Js.indexOf (Js.toLowerCase base) (Js.toLowerCase name) start, 0)
  else r.

(** Strategy 4: the name between word boundaries, in the rest of the body. *)
Definition strategy4 (base name : string) (start : Z) (r : Z * Z) : Z * Z :=
  if fst r =? -1 then
    match Js.word_match name (Js.substring_from base start) with
    | Some k => (start + k, 0)
    | None => r
    end
  else r.

(** The pair [(idx, adj)] after strategies 1 to 4, from [idx = -1] and
    [adj = 0]. *)
Definition forward_search (base raw name : string) (start : Z) : Z * Z :=
  strategy4 base name start
    (strategy3 base name start
       (strategy2 base name start
          (strategy1 base raw name start (-1, 0)))).

(** The fallback after the forward searches: the last occurrence anywhere,
    else the cursor or the end of the body. *)
Definition locate (base raw name : string) (start cur : Z) : Z * Z :=
  let '(idx, adj) := forward_search base raw name start in
  if idx <? 0 then
    let idx := Js.lastIndexOf base name in
    let idx := if idx =? -1 then Z.max cur (Js.len base) else idx in
    (idx, 0)
  else (idx, adj).

(** [String(m.id || 0)] *)
Definition id_string (m : mention) : string :=
  if String.eqb (id m) EmptyString then "0" else id m.

(** One iteration of [for (const m of msg.mentions)]. *)
Definition build_step (base : string) (st : build_state) (m : mention) : build_state :=
  let raw := raw_of m in
  let name := name_of m in
  if String.eqb name EmptyString then
    BuildState (ids st) (offsets st) (lengths st) (types st) (cursor st)
               (warnings st ++ ["Skipping empty mention tag"])
  else
    let start := start_of m (cursor st) in
    let '(idx, adj) := locate base raw name start (cursor st) in
    let off := Z.max 0 (idx + adj) in
    let nameLen := Js.len name in
    BuildState (ids st ++ [id_string m]) (offsets st ++ [off])
               (lengths st ++ [nameLen]) (types st ++ ["p"])
               (off + nameLen) (warnings st).

Definition build_loop (base : string) (ms : list mention) : build_state :=
  fold_left (build_step base) ms build_init.

(** [buildMentionData(msg, baseBody)]; [baseBody] is always a string at the
    call site, so [base] is [baseBody]. *)
Definition buildMentionData (mentions : mentions_field) (baseBody : string)
  : option mention_data :=
  match mentions with
  | MentionsArray [] => None
  | MentionsArray ms =>
      let st := build_loop baseBody ms in
      match ids st with
      | [] => None
      | _ =>
          Some (MentionData (Js.join "," (ids st))
                            (Js.join "," (map Js.of_int (offsets st)))
                            (Js.join "," (map Js.of_int (lengths st)))
                            (Js.join "," (types st)))
      end
  | _ => None
  end.

(** Warnings logged by [buildMentionData]. *)
Definition buildMentionData_warnings (mentions : mentions_field) (baseBody : string)
  : list string :=
  match mentions with
  | MentionsArray ms => warnings (build_loop baseBody ms)
  | _ => []
  end.

(** The name of a mention occurs somewhere in the body. *)
Definition locatable (base : string) (m : mention) : bool :=
  negb (Js.indexOf base (name_of m) 0 =? -1).

(** Each element is at most its successor. *)
Fixpoint nondecreasing (l : list Z) : bool :=
  match l with
  | a :: (b :: _) as r => (a <=? b) && nondecreasing r
  | _ => true
  end.

(** The mentions that the loop resolves by a forward search: the start
    position of every mention with a non-empty name is not before the
    cursor, and one of the strategies 1 to 4 finds the name from there. *)
Fixpoint found_in_order (base : string) (st : build_state) (ms : list mention) : bool :=
  match ms with
  | [] => true
  | m :: ms' =>
      (String.eqb (name_of m) EmptyString
       || ((cursor st <=? start_of m (cursor st))
           && (0 <=? fst (forward_search base (raw_of m) (name_of m)
                                         (start_of m (cursor st))))))
      && found_in_order base (build_step base st m) ms'
  end.

(** What the forward strategies maintain: a pair with a non-negative
    index points at or after the start position and has a non-negative
    adjustment. *)
Definition hit_ok (start : Z) (r : Z * Z) : Prop :=
  0 <= fst r -> start <= fst r /\ 0 <= snd r.

(** What the loop maintains when every mention is found in order: the
    offsets so far are non-decreasing and none lies beyond the cursor. *)
Definition behind_cursor (st : build_state) : Prop :=
  nondecreasing (offsets st) = true
  /\ Forall (fun o => o <= cursor st) (offsets st).

(** ** Decoded JSON values *)

(** A value produced by [JSON.parse]. A number whose value is an integer
    that [String] prints digit for digit, as it does every integer of
    magnitude up to 2^53, is [JInt]; any other number is carried with the
    text [String] prints for it, a larger integer with the shortest digits
    that read back as the same double: the source only compares numbers
    with the integers 5, 19 and [reqID], and prints them.
    [undefined], which [JSON.parse] never yields, is [None] of [option json]. *)
#[warnings="-register-all"] Inductive json :=
| JNull
| JBool (b : bool)
| JInt (z : Z)
| JFrac (printed : string)
| JStr (s : string)
| JArr (items : list json)
| JObj (fields : list (string * json)).

Module Json.

(** The value stored under the key [k] of an object. *)
Fixpoint lookup (k : string) (fields : list (string * json)) : option json :=
  match fields with
  | [] => None
  | (k', v) :: rest => if String.eqb k k' then Some v else lookup k rest
  end.

(** [v.k] for a property name [k] that no array, string or number has of
    its own ([payload], [request_id], [step]): [None] is [undefined].
    Reading a property of [null] throws instead; the one place where that
    can happen, in [decode], treats [null] before it gets here. *)
Definition prop (v : json) (k : string) : option json :=
  match v with
  | JObj fields => lookup k fields
  | _ => None
  end.

(** [v === z] for an integer literal [z] *)
Definition is_int (v : option json) (z : Z) : bool :=
  match v with Some (JInt z') => z' =? z | _ => false end.

(** [v === s] for a string literal [s] *)
Definition is_str (v : option json) (s : string) : bool :=
  match v with Some (JStr s') => String.eqb s' s | _ => false end.

(** [String(v)] *)
Fixpoint to_string (v : json) : string :=
  match v with
  | JNull => "null"
  | JBool true => "true"
  | JBool false => "false"
  | JInt z => Js.of_int z
  | JFrac printed => printed
  | JStr s => s
  | JArr items =>
      Js.join "," (map (fun x => match x with
                                 | JNull => EmptyString
                                 | _ => to_string x
                                 end) items)
  | JObj _ => "[object Object]"
  end.

Definition to_string_opt (v : option json) : string :=
  match v with Some v => to_string v | None => "undefined" end.

End Json.

(** ** extractIdsFromPayload *)

Record extracted := Extracted {
  ex_threadID : option string;
  ex_messageID : option string
}.

(** [walk(n)]: the two assignments guarded by the tag tests, then the
    descent into every element of the array. *)
Fixpoint walk (n : json) (acc : extracted) : extracted :=
  match n with
  | JArr items =>
      let n0 := nth_error items 0 in
      let n1 := nth_error items 1 in
      let acc :=
        if Json.is_int n0 5
           && (Json.is_str n1 "replaceOptimsiticMessage"
               || Json.is_str n1 "replaceOptimisticMessage")
        then Extracted (ex_threadID acc)
                       (Some (Json.to_string_opt (nth_error items 3)))
        else acc in
      let acc :=
        if Json.is_int n0 5 && Json.is_str n1 "writeCTAIdToThreadsTable"
        then
          match nth_error items 2 with
          | Some (JArr a) =>
              if Json.is_int (nth_error a 0) 19
              then Extracted (Some (Json.to_string_opt (nth_error a 1)))
                             (ex_messageID acc)
              else acc
          | _ => acc
          end
        else acc in
      fold_left (fun acc x => walk x acc) items acc
  | _ => acc
  end.

(** [extractIdsFromPayload(payload)], walking [payload?.step]. *)
Definition extractIdsFromPayload (payload : json) : extracted :=
  match Json.prop payload "step" with
  | Some step => walk step (Extracted None None)
  | None => Extracted None None
  end.

(** ** Binary64 arithmetic of the correlation identifier *)

(** A non-negative finite binary64 number [x] is carried as the integer
    [x * 2^1074]: every such number is a multiple of the smallest
    subnormal [2^-1074]. Results stay far below the overflow threshold in
    the one expression of the source that uses them. *)
Module B64.

Definition one : Z := 2 ^ 1074.

Definition of_int (n : Z) : Z := n * one.

(** Representable: at most 53 significant bits. *)
Definition is_double (X : Z) : bool :=
  (0 <=? X) && ((X <? 2 ^ 53) || (X mod 2 ^ (Z.log2 X - 52) =? 0)).

(** Round to nearest, ties to even, of the exact value [X]. *)
Definition round (X : Z) : Z :=
  if X <? 2 ^ 53 then X
  else
    let s := Z.log2 X - 52 in
    let q := X / 2 ^ s in
    let r := X mod 2 ^ s in
    let half := 2 ^ (s - 1) in
    let q' := if r <? half then q
              else if half <? r then q + 1
              else if Z.even q then q else q + 1 in
    q' * 2 ^ s.

(** [x * k] for a double [x] and an integer constant [k]: the exact
    product is [X * k] in the same unit. *)
Definition mul_int (X k : Z) : Z := round (X * k).

(** [x + y] *)
Definition add (X Y : Z) : Z := round (X + Y).

(** [Math.floor(x)], an integer. *)
Definition floor (X : Z) : Z := X / one.

(** What [Math.random()] may return: a double in [0, 1). *)
Definition is_random (X : Z) : bool := is_double X && (X <? one).

End B64.

(** [2^1021] is one unit in the last place of a double just below 1. *)
Definition ulp1 : Z := 2 ^ 1021.

(** [Math.floor(100 + Math.random() * 900)] *)
Definition reqID_of (rnd : Z) : Z :=
  B64.floor (B64.add (B64.of_int 100) (B64.mul_int rnd 900)).

(** The same expression on the binary64 operations that the Standard
    Library specifies ([SpecFloat], precision 53, maximal exponent 1024),
    for comparison on sample inputs. *)
Definition of_spec_float (f : spec_float) : option Z :=
  match f with
  | S754_zero _ => Some 0
  | S754_finite false m e => Some (Z.pos m * 2 ^ (e + 1074))
  | _ => None
  end.

Definition to_spec_float (X : Z) : spec_float :=
  binary_normalize 53 1024 X (-1074) false.

Definition reqID_spec_float (rnd : Z) : option Z :=
  option_map B64.floor
    (of_spec_float
       (SFadd 53 1024 (to_spec_float (B64.of_int 100))
              (SFmul 53 1024 (to_spec_float rnd) (to_spec_float (B64.of_int 900))))).

(** Doubles in [0, 1): zero, the smallest subnormal, one half, the largest
    double below one, numbers whose product with 900 falls halfway between
    two doubles, and a few of no particular shape. *)
Definition sample_randoms : list Z :=
  [0; 1; 2 ^ 1073; B64.one - 2 ^ 1021; B64.one - 2 ^ 1022;
   (2 ^ 52 + 64) * 2 ^ 1021; (2 ^ 52 + 192) * 2 ^ 1021; (2 ^ 52 + 128) * 2 ^ 1020;
   (2 ^ 52 + 12345) * 2 ^ 1000; 3 * 2 ^ 1070; 2 ^ 53 - 1; 7 * 2 ^ 500;
   6004799503160661 * 2 ^ 1019; 1 * 2 ^ 1064; 5 * 2 ^ 1066 + 2 ^ 1020].

(** Exact values to be rounded: below and above 53 bits, ties with an
    even and with an odd quotient, and values next to a power of two. *)
Definition sample_exacts : list Z :=
  [0; 12345; 2 ^ 53 - 1; 2 ^ 53; 2 ^ 53 + 1; 2 ^ 53 + 2; 2 ^ 53 + 3;
   2 ^ 60 + 2 ^ 7; 2 ^ 60 + 3 * 2 ^ 7; 2 ^ 60 + 2 ^ 7 + 1; 2 ^ 60 + 2 ^ 7 - 1;
   2 ^ 61 - 1; 900 * (B64.one - 2 ^ 1021); 100 * B64.one + 900 * B64.one - 2 ^ 1031;
   2 ^ 1500 + 2 ^ 1447 + 2 ^ 1446; 2 ^ 1500 + 2 ^ 1446].

(** ** Values exchanged with the caller and the transport *)

Inductive error :=
| ErrorObject (message : string)     (* the object [{ error: message }] *)
| TransportError (detail : string)   (* what the transport hands to the publish callback *)
| TypeError (message : string).      (* thrown by the engine on calling a non-function *)

(** [{ body: text || null, messageID, threadID }] *)
Record bodies := Bodies {
  body : option string;
  messageID : option string;
  threadID : option string
}.

(** The value held by the variable [callback] when it is used. *)
Inductive callback :=
| UserFunction                 (* the function the caller passed *)
| DefaultFunction              (* the function that settles [returnPromise] *)
| NotCallable (s : string)     (* a string left in [callback] *)
| NoCallback.                  (* [undefined] *)

(** A message in object form; [m_rest] are its other own properties,
    which the spread [{ ...m }] copies. *)
Record message := MessageObject {
  m_body : option string;            (* [None]: null or undefined *)
  m_attachment : option string;      (* [None]: null or undefined; else an opaque handle *)
  m_mentions : mentions_field;
  m_rest : list (string * json)
}.

(** The first argument, by [utils.getType(msg)]. *)
Inductive msg_arg :=
| MsgString (s : string)
| MsgObject (m : message)
| MsgOther (type : string).          (* any other type name *)

(** The second argument: a function, or a value with its [String(threadID)]. *)
Inductive thread_arg :=
| ThreadFunction
| ThreadValue (s : string).

(** The third argument as passed. *)
Inductive callback_arg :=
| ArgFunction
| ArgString (s : string)
| ArgAbsent.

(** A listener of the transport's [message] event: [handleRes] of the
    call under study, or a listener of some other origin. *)
Inductive listener :=
| HandleRes
| Other (n : nat).

Inductive effect :=
| On (event : string) (l : listener)
| RemoveListener (event : string) (l : listener)
| Publish (topic payload : string) (qos : Z) (retain : bool)
| SetTimeout (ms : Z)
| Callback (err : option error) (data : option bodies)   (* the caller's function is called *)
| Resolve (b : bodies)
| Reject (e : error)
| ResolveReturn (data : option bodies)     (* [resolveFunc(data)] of [returnPromise] *)
| RejectReturn (e : error)                 (* [rejectFunc(err)] of [returnPromise] *)
| Throw (e : error)
| LogInfo (prefix text : string)
| LogWarn (prefix text : string)
| ThreadCallback (e : error)               (* [threadID(err)] *)
| SendMessage (m : message) (threadID : thread_arg) (cb : callback)
              (replyToMessage : option string).

Inductive settlement :=
| Fulfilled (b : bodies)
| Rejected (e : error).

(** State of one call of [publishWithAck]: its closure variables, the
    transport's listener table, the promise, and the effects so far. *)
Record pending := Pending {
  p_text : string;
  p_reqID : Z;
  p_callback : callback;
  done : bool;
  listeners : list listener;
  promise : option settlement;
  trace : list effect
}.

(** What happens after [publishWithAck] has returned. *)
Inductive event :=
| Message (topic message : string)     (* the transport emits [message] *)
| Published (err : option error)       (* the transport calls the publish callback *)
| Timeout.                             (* the timer of 15000 ms fires *)

Definition listener_eqb (a b : listener) : bool :=
  match a, b with
  | HandleRes, HandleRes => true
  | Other n, Other m => Nat.eqb n m
  | _, _ => false
  end.

(** Removal of the first instance of [l]. *)
Fixpoint remove_first (l : listener) (ls : list listener) : list listener :=
  match ls with
  | [] => []
  | x :: r => if listener_eqb l x then r else x :: remove_first l r
  end.

(** [emitter.removeListener(event, l)]: the most recently added instance
    of [l] is removed. *)
Definition removeListener (l : listener) (ls : list listener) : list listener :=
  rev (remove_first l (rev ls)).

Definition emit (es : list effect) (st : pending) : pending :=
  Pending (p_text st) (p_reqID st) (p_callback st) (done st) (listeners st)
          (promise st) (trace st ++ es).

(** [cleanup()] *)
Definition cleanup (st : pending) : pending :=
  if done st then st
  else Pending (p_text st) (p_reqID st) (p_callback st) true
               (removeListener HandleRes (listeners st)) (promise st)
               (trace st ++ [RemoveListener "message" HandleRes]).

(** [resolve(b)] and [reject(e)]: a promise keeps its first settlement. *)
Definition settle (s : settlement) (st : pending) : pending :=
  Pending (p_text st) (p_reqID st) (p_callback st) (done st) (listeners st)
          (match promise st with None => Some s | Some s0 => Some s0 end)
          (trace st ++ [match s with Fulfilled b => Resolve b | Rejected e => Reject e end]).

Definition truthy (cb : callback) : bool :=
  match cb with
  | UserFunction | DefaultFunction => true
  | NotCallable s => negb (String.eqb s EmptyString)
  | NoCallback => false
  end.

(** [cb(err, data)]: the effects of the call, or [None] when the call
    throws because [cb] is no function. [Callback] records a call of the
    function that the caller passed, which is taken to return normally;
    the default function, which no caller sees, does nothing but
    [if (err) return rejectFunc(err); resolveFunc(data)]. *)
Definition invoke (cb : callback) (err : option error) (data : option bodies)
  : option (list effect) :=
  match cb with
  | UserFunction => Some [Callback err data]
  | DefaultFunction =>
      Some [match err with
            | Some e => RejectReturn e
            | None => ResolveReturn data
            end]
  | NotCallable _ | NoCallback => None
  end.

Definition not_a_function : error := TypeError "callback is not a function".

(** [callback && callback(err, data)], then the continuation [k] unless
    the call threw. *)
Definition notify_then (err : option error) (data : option bodies)
           (k : pending -> pending) (st : pending) : pending :=
  if truthy (p_callback st) then
    match invoke (p_callback st) err data with
    | Some es => k (emit es st)
    | None => emit [Throw not_a_function] st
    end
  else k st.

(** ** publishWithAck *)

Section Correlator.

(** [JSON.parse(text)]: the decoded value, or [None] when it throws. *)
Variable JSON_parse : string -> option json.

(** [JSON.stringify(value)] *)
Variable JSON_stringify : json -> string.

(** The two decode passes of the [try] block: the envelope, then its
    [payload] property. Reading [payload] of [null] throws; a missing
    [payload] is [undefined], which is no JSON text. The result is the
    envelope and the decoded payload stored back into it. *)
Definition decode (message : string) : option (json * json) :=
  match JSON_parse message with
  | None => None
  | Some JNull => None
  | Some jsonMsg =>
      match Json.prop jsonMsg "payload" with
      | None => None
      | Some p =>
          match JSON_parse (Json.to_string p) with
          | None => None
          | Some payload => Some (jsonMsg, payload)
          end
      end
  end.

(** [handleRes(topic, message)] *)
Definition handleRes (topic message : string) (st : pending) : pending :=
  if negb (String.eqb topic "/ls_resp") then st
  else
    match decode message with
    | None => st
    | Some (jsonMsg, payload) =>
        if negb (Json.is_int (Json.prop jsonMsg "request_id") (p_reqID st)) then st
        else
          let ex := extractIdsFromPayload payload in
          let b := Bodies (if String.eqb (p_text st) EmptyString
                           then None else Some (p_text st))
                          (ex_messageID ex) (ex_threadID ex) in
          notify_then None (Some b) (settle (Fulfilled b)) (cleanup st)
    end.

(** The callback given to [mqttClient.publish]. *)
Definition on_published (err : option error) (st : pending) : pending :=
  match err with
  | Some e => notify_then (Some e) None (settle (Rejected e)) (cleanup st)
  | None => st
  end.

Definition timeout_error : error := ErrorObject "Timeout waiting for ACK".

(** The function given to [setTimeout]. *)
Definition on_timeout (st : pending) : pending :=
  if done st then st
  else notify_then (Some timeout_error) None (settle (Rejected timeout_error))
                   (cleanup st).

(** The transport emits [message]: every listener registered when the
    emission starts is called; those of other origin leave the state of
    this call alone. *)
Definition deliver (topic message : string) (st : pending) : pending :=
  fold_left (fun st l =>
               match l with
               | HandleRes => handleRes topic message st
               | Other _ => st
               end) (listeners st) st.

Definition step (st : pending) (ev : event) : pending :=
  match ev with
  | Message topic message => deliver topic message st
  | Published err => on_published err st
  | Timeout => on_timeout st
  end.

Definition run (st : pending) (evs : list event) : pending :=
  fold_left step evs st.

(** [publishWithAck(content, text, reqID, callback)] up to its return:
    the executor of the promise registers the listener, publishes and
    arms the timer. [others] are the listeners the transport already has. *)
Definition publishWithAck (others : list nat) (content : json) (text : string)
           (reqID : Z) (cb : callback) : pending :=
  Pending text reqID cb false
          (map Other others ++ [HandleRes])
          None
          [On "message" HandleRes;
           Publish "/ls_req" (JSON_stringify content) 1 false;
           SetTimeout 15000].

(** ** sendMention *)

(** The literal [lit] at the head of [s], letters compared without case. *)
Fixpoint ci_prefix (lit s : string) : bool :=
  match lit with
  | EmptyString => true
  | String a lit' =>
      match s with
      | String c s' => Js.ci_eq a c && ci_prefix lit' s'
      | EmptyString => false
      end
  end.

Fixpoint ci_contains (lit s : string) : bool :=
  ci_prefix lit s
  || match s with
     | String _ r => ci_contains lit r
     | EmptyString => false
     end.

(** The alternatives of the regular expression of [hasLinks]. *)
Definition link_patterns : list string :=
  ["http://"; "https://"; "www."; "t.me/"; "fb.me/"; "youtu.be/";
   "facebook.com/"; "youtube.com/"].

(** [hasLinks(s)] for a string [s] *)
Definition hasLinks (s : string) : bool :=
  existsb (fun lit => ci_contains lit s) link_patterns.

(** [s] without its trailing equal signs: the replacement of [/=+$/g] by
    the empty string. *)
Fixpoint strip_trailing_eq (s : string) : string :=
  match s with
  | EmptyString => EmptyString
  | String c r =>
      match strip_trailing_eq r with
      | EmptyString => if Ascii.eqb c "=" then EmptyString else String c EmptyString
      | r' => String c r'
      end
  end.

(** What a call reads from its surroundings: the state of [ctx] and
    [api], and the values drawn, in program order, from [Math.random],
    [Date.now] and [utils.generateOfflineThreadingID] (a function of the
    repository's [utils] module, whose result is only passed on). *)
Record env := Env {
  connected : bool;             (* [ctx.mqttClient && ctx.mqttClient.connected] *)
  sendMessage_available : bool; (* [api.sendMessage] is truthy *)
  others : list nat;            (* listeners already on the transport *)
  random1 : Z;                  (* first [Math.random()], as in [B64] *)
  now1 : Z;                     (* first [Date.now()] *)
  offline_threading_id : string;
  now2 : Z;                     (* second [Date.now()] *)
  random2_base64 : string       (* base64 of the digits of the second [Math.random()] *)
}.

Inductive completion :=
| Threw (e : error)
| Returned                      (* the value of the call in tail position, or undefined *)
| ReturnedAck (p : pending).    (* the promise of [publishWithAck] *)

Record outcome := Outcome {
  effects : list effect;        (* before [publishWithAck] is entered *)
  completion_of : completion
}.

(** [return callback(err)] *)
Definition report (pre : list effect) (cb : callback) (err : error) : outcome :=
  match invoke cb (Some err) None with
  | Some es => Outcome (pre ++ es) Returned
  | None => Outcome pre (Threw not_a_function)
  end.

Definition mention_data_json (d : mention_data) : json :=
  JObj [("mention_ids", JStr (mention_ids d));
        ("mention_offsets", JStr (mention_offsets d));
        ("mention_lengths", JStr (mention_lengths d));
        ("mention_types", JStr (mention_types d))].

Definition payload0 (tid otid baseBody : string) (d : mention_data)
           (replyToMessage : option string) : json :=
  JObj ([("thread_id", JStr tid);
         ("otid", JStr otid);
         ("source", JInt 2097153);
         ("send_type", JInt 1);
         ("sync_group", JInt 1);
         ("mark_thread_read", JInt 1);
         ("text", if String.eqb baseBody EmptyString then JNull else JStr baseBody);
         ("initiating_source", JInt 0);
         ("skip_url_preview_gen", JInt 0);
         ("text_has_links", JInt (if hasLinks baseBody then 1 else 0));
         ("multitab_env", JInt 0);
         ("metadata_dataclass",
          JStr (JSON_stringify
                  (JObj [("media_accessibility_metadata",
                          JObj [("alt_text", JNull)])])));
         ("mention_data", mention_data_json d)]
        ++ match replyToMessage with
           | Some r => [("reply_metadata",
                         JObj [("reply_source_id", JStr r);
                               ("reply_source_type", JInt 1);
                               ("reply_type", JInt 0)])]
           | None => []
           end).

(** [content] after both [JSON.stringify] passes. *)
Definition content_of (e : env) (tid baseBody : string) (d : mention_data)
           (replyToMessage : option string) (reqID : Z) : json :=
  let task46 :=
    JObj [("label", JStr "46");
          ("payload",
           JStr (JSON_stringify
                   (payload0 tid (offline_threading_id e) baseBody d replyToMessage)));
          ("queue_name", JStr tid);
          ("task_id", JInt 400);
          ("failure_count", JNull)] in
  let task21 :=
    JObj [("label", JStr "21");
          ("payload",
           JStr (JSON_stringify
                   (JObj [("thread_id", JStr tid);
                          ("last_read_watermark_ts", JInt (now2 e));
                          ("sync_group", JInt 1)])));
          ("queue_name", JStr tid);
          ("task_id", JInt 401);
          ("failure_count", JNull)] in
  JObj [("app_id", JStr "2220391788200892");
        ("payload",
         JStr (JSON_stringify
                 (JObj [("tasks", JArr [task46; task21]);
                        ("epoch_id", JStr (Js.of_int (Z.shiftl (now1 e) 22)));
                        ("version_id", JStr "24804310205905615");
                        ("data_trace_id",
                         JStr (String "#" (strip_trailing_eq (random2_base64 e))))])));
        ("request_id", JInt reqID);
        ("type", JInt 3)].

Definition not_connected : error :=
  ErrorObject "MQTT client not connected. sendMention requires MQTT connection.".

Definition mentions_required : error :=
  ErrorObject "sendMention requires mentions array. Use sendMessage for messages without mentions.".

Definition build_failed : error :=
  ErrorObject "Failed to build mention data. Check mentions format.".

Definition sendMessage_missing : error :=
  ErrorObject "sendMessage API not available. Cannot send attachment.".

Definition bad_type (type : string) : error :=
  ErrorObject (String.append "Message should be of type string or object and not "
                             (String.append type ".")).

(** The test [!m.mentions || !Array.isArray(m.mentions) || m.mentions.length === 0] *)
Definition mentions_invalid (f : mentions_field) : bool :=
  match f with
  | MentionsArray (_ :: _) => false
  | _ => true
  end.

(** [{ ...m }] with its [mentions] property deleted. *)
Definition without_mentions (m : message) : message :=
  MessageObject (m_body m) (m_attachment m) MentionsAbsent (m_rest m).

(** The part of [sendMention] after the message has been coerced to an
    object [m] and [callback] and [replyToMessage] have their final
    values. *)
Definition send_object (e : env) (m : message) (tid : string) (cb : callback)
           (replyToMessage : option string) : outcome :=
  let baseBody := match m_body m with Some b => b | None => EmptyString end in
  match m_attachment m with
  | Some _ =>
      let pre := [LogInfo "sendMention"
                    "Attachment detected - skipping mentions, sending attachment only"] in
      let attachmentMsg := without_mentions m in
      if sendMessage_available e
      then Outcome (pre ++ [SendMessage attachmentMsg (ThreadValue tid) cb replyToMessage])
                   Returned
      else report pre cb sendMessage_missing
  | None =>
      if mentions_invalid (m_mentions m) then report [] cb mentions_required
      else
        let pre := map (LogWarn "sendMention")
                       (buildMentionData_warnings (m_mentions m) baseBody) in
        match buildMentionData (m_mentions m) baseBody with
        | None => report pre cb build_failed
        | Some mentionData =>
            let reqID := reqID_of (random1 e) in
            let content := content_of e tid baseBody mentionData replyToMessage reqID in
            Outcome pre (ReturnedAck (publishWithAck (others e) content baseBody reqID cb))
        end
  end.

(** [replyToMessage] after the test
    [typeof callback === "string" && !replyToMessage]. *)
Definition final_reply (cb_arg : callback_arg) (replyToMessage : option string)
  : option string :=
  match cb_arg, replyToMessage with
  | ArgString s, None => if String.eqb s EmptyString then None else Some s
  | _, _ => replyToMessage
  end.

(** [callback] after the same test and after the default function has
    replaced a falsy value. *)
Definition final_callback (cb_arg : callback_arg) (replyToMessage : option string)
  : callback :=
  match cb_arg, replyToMessage with
  | ArgFunction, _ => UserFunction
  | ArgAbsent, _ => DefaultFunction
  | ArgString _, None => DefaultFunction
  | ArgString s, Some _ =>
      if String.eqb s EmptyString then DefaultFunction else NotCallable s
  end.

(** [utils.getType(msg)] *)
Definition getType (msg : msg_arg) : string :=
  match msg with
  | MsgString _ => "String"
  | MsgObject _ => "Object"
  | MsgOther type => type
  end.

(** [msgType === "String" ? { body: msg } : msg], for the two accepted
    types. *)
Definition message_of (msg : msg_arg) : option message :=
  match msg with
  | MsgString s => Some (MessageObject (Some s) None MentionsAbsent [])
  | MsgObject m => Some m
  | MsgOther _ => None
  end.

(** [sendMention(msg, threadID, callback, replyToMessage)];
    [replyToMessage] is [None] when it is falsy. *)
Definition sendMention (e : env) (msg : msg_arg) (threadID : thread_arg)
           (cb_arg : callback_arg) (replyToMessage : option string) : outcome :=
  if negb (connected e) then
    match cb_arg with
    | ArgFunction => Outcome [Callback (Some not_connected) None] (Threw not_connected)
    | ArgString s =>
        if String.eqb s EmptyString then Outcome [] (Threw not_connected)
        else Outcome [] (Threw not_a_function)
    | ArgAbsent => Outcome [] (Threw not_connected)
    end
  else
    match threadID with
    | ThreadFunction =>
        Outcome [ThreadCallback (ErrorObject "Pass a threadID as a second argument.")]
                Returned
    | ThreadValue tid =>
        let cb := final_callback cb_arg replyToMessage in
        let reply := final_reply cb_arg replyToMessage in
        match message_of msg with
        | Some m => send_object e m tid cb reply
        | None => report [] cb (bad_type (getType msg))
        end
    end.

(** Every effect of a call and of the events that follow it. *)
Definition all_effects (o : outcome) (evs : list event) : list effect :=
  effects o
  ++ match completion_of o with
     | ReturnedAck p => trace (run p evs)
     | _ => []
     end.

End Correlator.


(** ** Observations on traces *)


Definition is_remove (e : effect) : bool :=
  match e with RemoveListener _ _ => true | _ => false end.

Definition is_publish (e : effect) : bool :=
  match e with Publish _ _ _ _ => true | _ => false end.

(** Calls of [resolve] and [reject] of the promise of [publishWithAck]. *)
Definition is_settle (e : effect) : bool :=
  match e with Resolve _ | Reject _ => true | _ => false end.

Definition is_publish_error (ev : event) : bool :=
  match ev with Published (Some _) => true | _ => false end.

(** Calls on the transport or on the timer. *)
Definition on_transport (e : effect) : bool :=
  match e with
  | On _ _ | RemoveListener _ _ | Publish _ _ _ _ | SetTimeout _ => true
  | _ => false
  end.

(** Effects that only the executor of the promise produces. *)
Definition at_start (e : effect) : bool :=
  match e with
  | On _ _ | Publish _ _ _ _ | SetTimeout _ => true
  | _ => false
  end.

Definition count (f : effect -> bool) (t : list effect) : nat :=
  List.length (filter f t).

Definition callable (cb : callback) : bool :=
  match cb with
  | UserFunction | DefaultFunction => true
  | NotCallable _ | NoCallback => false
  end.


(** A frame that [handleRes] accepts for [reqID]: both decode passes
    succeed and [request_id] is the identifier. *)
Definition matches (JSON_parse : string -> option json) (reqID : Z) (message : string)
  : bool :=
  match decode JSON_parse message with
  | Some (jsonMsg, _) => Json.is_int (Json.prop jsonMsg "request_id") reqID
  | None => false
  end.

(** The three exit paths of a call: the timer, a publish error, and a
    matching frame on the response channel. *)
Definition is_exit (JSON_parse : string -> option json) (reqID : Z) (ev : event) : bool :=
  match ev with
  | Timeout => true
  | Published (Some _) => true
  | Published None => false
  | Message topic message => String.eqb topic "/ls_resp" && matches JSON_parse reqID message
  end.

(** A frame that [handleRes] must skip, for one of the three reasons the
    specification names. *)
Inductive skipped (JSON_parse : string -> option json) (reqID : Z) (message : string)
  : Prop :=
| outer_decode_fails :
    JSON_parse message = None -> skipped JSON_parse reqID message
| payload_decode_fails :
    forall jsonMsg : json,
      JSON_parse message = Some jsonMsg ->
      jsonMsg = JNull
      \/ Json.prop jsonMsg "payload" = None
      \/ (exists p : json, Json.prop jsonMsg "payload" = Some p
                           /\ JSON_parse (Json.to_string p) = None) ->
      skipped JSON_parse reqID message
| request_id_differs :
    forall jsonMsg : json,
      JSON_parse message = Some jsonMsg ->
      Json.is_int (Json.prop jsonMsg "request_id") reqID = false ->
      skipped JSON_parse reqID message.

(** States of a call of [publishWithAck] with listeners [others] already on
    the transport: the listener is in the table exactly as long as [done]
    is unset, it has been removed once when [done] is set, and after the
    three calls of the executor nothing touches the transport but that
    removal. *)
Record consistent (others : list nat) (start : list effect) (st : pending) : Prop :=
  Consistent {
    c_listeners : listeners st = map Other others ++ (if done st then [] else [HandleRes]);
    c_trace : exists rest : list effect,
        trace st = start ++ rest
        /\ forallb (fun e => negb (at_start e)) rest = true
        /\ count is_remove rest = (if done st then 1 else 0)%nat
  }.


(** [st'] comes after [st]: the closure variables are the same, [done]
    stays set and a settled promise keeps its settlement. *)
Record extends (st st' : pending) : Prop := Extends {
  e_text : p_text st' = p_text st;
  e_reqID : p_reqID st' = p_reqID st;
  e_callback : p_callback st' = p_callback st;
  e_done : done st = true -> done st' = true;
  e_promise : forall s : settlement, promise st = Some s -> promise st' = Some s
}.

(** Effects that neither belong to the executor nor remove a listener. *)
Definition quiet (es : list effect) : bool :=
  forallb (fun e => negb (at_start e) && negb (is_remove e)) es.

(** As long as [done] is unset nothing has called [resolve] or [reject];
    afterwards at most one call has. *)
Definition settled_once (st : pending) : Prop :=
  (count is_settle (trace st) <= (if done st then 1 else 0))%nat.

(** ** A serializer and a decoder for worked examples *)

Definition quote : string := String (ascii_of_nat 34) EmptyString.

(** Compact JSON text of a value whose strings need no escaping. *)
Fixpoint demo_stringify (v : json) : string :=
  match v with
  | JNull => "null"
  | JBool true => "true"
  | JBool false => "false"
  | JInt z => Js.of_int z
  | JFrac printed => printed
  | JStr s => String.append quote (String.append s quote)
  | JArr items =>
      String.append "[" (String.append (Js.join "," (map demo_stringify items)) "]")
  | JObj fields =>
      String.append "{"
        (String.append
           (Js.join ","
              (map (fun kv =>
                      String.append quote
                        (String.append (fst kv)
                           (String.append quote
                              (String.append ":" (demo_stringify (snd kv))))))
                   fields))
           "}")
  end.

Definition demo_payload : json :=
  JObj [("step",
         JArr [JInt 1;
               JArr [JInt 5; JStr "replaceOptimisticMessage"; JNull; JStr "mid.77"];
               JArr [JArr [JInt 5; JStr "writeCTAIdToThreadsTable";
                           JArr [JInt 19; JInt 4242]]]])].

(** A response frame for the correlation identifier [id]. *)
Definition demo_frame (id : Z) : json :=
  JObj [("request_id", JInt id); ("payload", JStr "PAYLOAD"); ("sp", JArr [])].

(** A frame whose payload is no JSON text. *)
Definition demo_bad_payload (id : Z) : json :=
  JObj [("request_id", JInt id); ("payload", JStr "<html>")].

(** A decoder that knows the texts of the frames above. *)
Definition demo_parse (text : string) : option json :=
  if String.eqb text "PAYLOAD" then Some demo_payload
  else if String.eqb text "ACK 550" then Some (demo_frame 550)
  else if String.eqb text "ACK 456" then Some (demo_frame 456)
  else if String.eqb text "BAD 550" then Some (demo_bad_payload 550)
  else if String.eqb text "null" then Some JNull
  else None.

Definition demo_env : env :=
  Env true true [7%nat] (2 ^ 1073) 1700000000000 "7000000000000000001"
      1700000000001 "MC4xMjM=".


Definition demo_alice : message :=
  MessageObject (Some "hello @Alice bye") None
                (MentionsArray [Mention "@Alice" "1" None]) [].

Definition demo_no_mentions : message :=
  MessageObject (Some "hello") None (MentionsArray []) [].


(** A call in flight with the identifier 550 and a callback of the caller. *)
Definition demo_call : pending :=
  publishWithAck demo_stringify [7%nat] JNull "hello" 550 UserFunction.

(** ** Further observations on mentions *)

(** [s] without its first [n] characters. *)
Fixpoint drop (n : nat) (s : string) : string :=
  match n, s with
  | O, _ => s
  | S n', String _ r => drop n' r
  | S _, EmptyString => EmptyString
  end.

(** The names of the mentions that the loop does not skip, in order. *)
Definition names_of (ms : list mention) : list string :=
  filter (fun name => negb (String.eqb name EmptyString)) (map name_of ms).

(** The name stands in the body at the offset, up to the case of letters. *)
Definition covers (base : string) (off : Z) (name : string) : bool :=
  (0 <=? off) && ci_prefix name (drop (Z.to_nat off) base).

(** A mention whose search may start anywhere in the body: it has no
    [fromIndex], or one that is not negative. *)
Definition starts_inside (m : mention) : bool :=
  match fromIndex m with Some i => 0 <=? i | None => true end.

(** Each range ends where the next begins, or before. *)
Fixpoint ranges_in_order (offs lens : list Z) : bool :=
  match offs, lens with
  | a :: ((b :: _) as offs'), l :: lens' => (a + l <=? b) && ranges_in_order offs' lens'
  | _, _ => true
  end.

(** What the loop maintains when every mention is found in order: the
    ranges so far follow one another and all end at or before the cursor. *)
Definition ranges_behind_cursor (st : build_state) : Prop :=
  ranges_in_order (offsets st) (lengths st) = true
  /\ Forall2 (fun o l => o + l <= cursor st) (offsets st) (lengths st).

(** What the search strategies maintain: a pair with a non-negative
    index has a non-negative adjustment and points, adjustment included, at
    the name. *)
Definition hit_covers (base name : string) (r : Z * Z) : Prop :=
  0 <= fst r -> 0 <= snd r /\ covers base (fst r + snd r) name = true.

(** A mention that the loop can place: its name is empty (and it is
    skipped), or the name occurs in the body and the search starts inside. *)
Definition placeable (base : string) (m : mention) : bool :=
  String.eqb (name_of m) EmptyString || (locatable base m && starts_inside m).

(** ** Further observations on the response *)











(** A callback whose call throws: a non-empty string. *)
Definition throws_on_call (cb : callback) : bool :=
  truthy cb && negb (callable cb).


(** What the shared tail of the three handlers adds to the trace after
    [cleanup]: the call of the callback, when there is one, and the
    settlement, unless the call has thrown. *)
Definition tail_effects (cb : callback) (err : option error) (data : option bodies)
           (s : settlement) : list effect :=
  let settled := [match s with Fulfilled b => Resolve b | Rejected e => Reject e end] in
  if truthy cb then
    match invoke cb err data with
    | Some es => es ++ settled
    | None => [Throw not_a_function]
    end
  else settled.

(** Number of times the handlers reach the call of the callback: once at
    the first exit event, and once more for every publish error after it. *)
Fixpoint handler_calls (JSON_parse : string -> option json) (reqID : Z)
         (evs : list event) : nat :=
  match evs with
  | [] => 0
  | ev :: rest =>
      if is_exit JSON_parse reqID ev
      then S (List.length (filter is_publish_error rest))
      else handler_calls JSON_parse reqID rest
  end.

(** The calls of sendMention that reach [mqttClient.publish]: the
    transport is connected, [threadID] is no function, the message is a
    string or an object without attachment, and its mentions are an array
    with at least one name that is not empty. *)
Definition publishes (e : env) (msg : msg_arg) (threadID : thread_arg) : bool :=
  connected e
  && match threadID with ThreadValue _ => true | ThreadFunction => false end
  && match message_of msg with
     | Some m =>
         match m_attachment m, m_mentions m with
         | None, MentionsArray ms =>
             match names_of ms with [] => false | _ => true end
         | _, _ => false
         end
     | None => false
     end.

(** The name stands in the body at the offset, character for character:
    [base.substr(off, name.length) === name]. *)
Definition stands_at (base : string) (off : Z) (name : string) : bool :=
  (0 <=? off) && String.prefix name (drop (Z.to_nat off) base).

(** The tag with its at-signs, or else the bare name, occurs in the body
    at or after the position [start]: strategy 1 or strategy 2 finds it. *)
Definition found_verbatim (base : string) (m : mention) (start : Z) : bool :=
  (Js.startsWith (raw_of m) "@" && negb (Js.indexOf base (raw_of m) start =? -1))
  || negb (Js.indexOf base (name_of m) start =? -1).

(** The mentions that the loop resolves without regard to case: every
    mention with a non-empty name is found verbatim from its start
    position, the cursor being where the loop has left it. *)
Fixpoint found_exactly (base : string) (st : build_state) (ms : list mention) : bool :=
  match ms with
  | [] => true
  | m :: ms' =>
      (String.eqb (name_of m) EmptyString
       || found_verbatim base m (start_of m (cursor st)))
      && found_exactly base (build_step base st m) ms'
  end.

(** A string of ASCII characters. On such a string [toLowerCase] and the
    [i] flag change A-Z and nothing else, so that the lower-case copy has
    the length of the string and its indices are indices of the string;
    beyond ASCII a lower-case copy can be longer than the string. *)
Definition ascii_only (s : string) : bool :=
  forallb (fun c => Js.code c <? 128) (list_ascii_of_string s).

(** Every tag of the mentions is a string of ASCII characters. *)
Definition ascii_tags (ms : list mention) : bool :=
  forallb (fun m => ascii_only (tag m)) ms.

(** What the [i] flag of a regular expression without the [u] flag does
    to a code unit that is compared with an ASCII character: A-Z become
    a-z and every other code unit, of whatever script, stays as it is. *)
Definition fold_ascii (c : ascii) : ascii :=
  let n := Js.code c in
  if (65 <=? n) && (n <=? 90) then Js.chr (n + 32) else c.

(** [mid] is the literal [lit], of lower-case letters and punctuation,
    but for the case of its letters. *)
Fixpoint spells (lit mid : string) : bool :=
  match lit, mid with
  | EmptyString, EmptyString => true
  | String a lit', String c mid' => Ascii.eqb a (fold_ascii c) && spells lit' mid'
  | _, _ => false
  end.

(** ** The uptime pinger (first module of the source file) *)

Module Uptime.

(** An environment variable or a configuration value: [None] when it is
    not set. Such a value is truthy when it is a non-empty string. *)
Definition is_set (v : option string) : bool :=
  match v with
  | Some s => negb (String.eqb s EmptyString)
  | None => false
  end.

(** [a || b] *)
Definition or_else (a b : option string) : option string :=
  if is_set a then a else b.

(** A value inside a template literal. *)
Definition shown (v : option string) : string :=
  match v with Some s => s | None => "undefined" end.

(** The variables of [process.env] that the module reads. *)
Record process_env := ProcessEnv {
  REPL_SLUG : option string;
  REPL_OWNER : option string;
  RENDER_SERVICE_NAME : option string;
  RENDER : option string;
  RENDER_EXTERNAL_HOSTNAME : option string;
  RAILWAY_STATIC_URL : option string;
  RAILWAY_PUBLIC_DOMAIN : option string;
  GITHUB_ACTIONS : option string;
  PORT : option string;
  HOST : option string;
  HOSTNAME : option string
}.

(** [{ platform, url }]; [url] is [None] for [null]. *)
Record platform_info := PlatformInfo {
  platform : string;
  url : option string
}.

(** [detectPlatformAndURL()]; [UptimeURL] is
    [global.Fca.Require.Priyansh.UptimeURL]. *)
Definition detectPlatformAndURL (env : process_env) (UptimeURL : option string)
  : option platform_info :=
  if is_set (REPL_SLUG env) && is_set (REPL_OWNER env) then
    Some (PlatformInfo "Replit"
            (Some (String.append "https://"
                     (String.append (shown (REPL_SLUG env))
                        (String.append "."
                           (String.append (shown (REPL_OWNER env)) ".repl.co"))))))
  else
    let render :=
      if is_set (RENDER_SERVICE_NAME env) || is_set (RENDER env) then
        let serviceName :=
          or_else (RENDER_SERVICE_NAME env) (RENDER_EXTERNAL_HOSTNAME env) in
        if is_set serviceName then
          Some (PlatformInfo "Render"
                  (Some (String.append "https://"
                           (String.append (shown serviceName) ".onrender.com"))))
        else None
      else None in
    match render with
    | Some info => Some info
    | None =>
        if is_set (RAILWAY_STATIC_URL env) || is_set (RAILWAY_PUBLIC_DOMAIN env) then
          let domain := or_else (RAILWAY_STATIC_URL env) (RAILWAY_PUBLIC_DOMAIN env) in
          Some (PlatformInfo "Railway"
                  (Some (if Js.startsWith (shown domain) "http"
                         then shown domain
                         else String.append "https://" (shown domain))))
        else if is_set (GITHUB_ACTIONS env) then
          Some (PlatformInfo "GitHub Actions" None)
        else if is_set (PORT env) && (is_set (HOST env) || is_set (HOSTNAME env)) then
          let host := or_else (HOST env) (HOSTNAME env) in
          Some (PlatformInfo "Generic Hosting"
                  (Some (String.append "https://" (shown host))))
        else if is_set UptimeURL then
          Some (PlatformInfo "Custom URL" UptimeURL)
        else None
    end.

(** The two loggers of the module: the one it requires from [../logger]
    and the one of the global registry. *)
Inductive logger_id :=
| ModuleLogger
| GlobalLogger.

Inductive level :=
| Normal
| Info
| Warning.

(** The texts that are logged; the literal parts, which carry pictographs,
    are named rather than spelled. *)
Inductive log_text :=
| EnabledForCustomURL            (* Uptime monitoring enabled for custom URL *)
| Enabled                        (* Uptime monitoring enabled *)
| PlatformLine (p : string)      (* Platform: p *)
| UrlLine (u : string)           (* URL: u *)
| NotSupport                     (* Language.ExtraUpTime.NotSupport *)
| TipSetUptimeURL                (* Tip: Set UptimeURL in PriyanshFca.json to enable ... *)
| DetectedWithoutURL (p : string)(* p detected but no URL available *)
| TipCustomURL                   (* Set UptimeURL in PriyanshFca.json for custom URL monitoring *)
| TipSupported                   (* Supported: Replit, Render, Railway *)
| TipOrSet.                      (* Or set UptimeURL in PriyanshFca.json for custom monitoring *)

Inductive effect :=
| Log (l : logger_id) (lv : level) (t : log_text)
| SetTimeout (ms : Z)
| SetInterval (ms : Z).

(** [Value.Uptime] (as a truth value) and [Value.UptimeURL]. *)
Record config := Config {
  Uptime : bool;
  UptimeURL : option string
}.

(** What a call of the exported function does and returns: [monitored] is
    the URL of the interval it returns, [None] when it returns nothing. *)
Record outcome := Outcome {
  effects : list effect;
  monitored : option string
}.

(** [startUptimeMonitoring(url, platform)] up to its return: the timer of
    the first ping and the interval of 5 minutes. *)
Definition startUptimeMonitoring (target label : string) : list effect :=
  [SetTimeout 5000; SetInterval (5 * 60 * 1000)].

(** The branch that [win32] and [darwin] share but for the label they
    pass on. *)
Definition custom_only (label : string) (cfg : config) : outcome :=
  if is_set (UptimeURL cfg) then
    Outcome ([Log ModuleLogger Normal EnabledForCustomURL;
              Log ModuleLogger Info (UrlLine (shown (UptimeURL cfg)))]
             ++ startUptimeMonitoring (shown (UptimeURL cfg)) label)
            (Some (shown (UptimeURL cfg)))
  else
    Outcome [Log ModuleLogger Warning NotSupport;
             Log ModuleLogger Info TipSetUptimeURL]
            None.

(** The exported function; [os] is [process.platform]. *)
Definition module_exports (os : string) (cfg : config) (env : process_env) : outcome :=
  if negb (Uptime cfg) then Outcome [] None
  else if String.eqb os "win32" then custom_only "Windows (Custom)" cfg
  else if String.eqb os "darwin" then custom_only "macOS (Custom)" cfg
  else if String.eqb os "linux" then
    match detectPlatformAndURL env (UptimeURL cfg) with
    | Some (PlatformInfo p (Some u)) =>
        if negb (String.eqb u EmptyString) then
          Outcome ([Log ModuleLogger Normal Enabled;
                    Log ModuleLogger Info (PlatformLine p);
                    Log ModuleLogger Info (UrlLine u)]
                   ++ startUptimeMonitoring u p)
                  (Some u)
        else
          Outcome [Log ModuleLogger Warning (DetectedWithoutURL p);
                   Log ModuleLogger Info TipCustomURL]
                  None
    | Some (PlatformInfo p None) =>
        Outcome [Log ModuleLogger Warning (DetectedWithoutURL p);
                 Log ModuleLogger Info TipCustomURL]
                None
    | None =>
        Outcome [Log ModuleLogger Warning NotSupport;
                 Log ModuleLogger Info TipSupported;
                 Log ModuleLogger Info TipOrSet]
                None
    end
  else Outcome [Log GlobalLogger Warning NotSupport] None.

Definition is_timer (e : effect) : bool :=
  match e with SetTimeout _ | SetInterval _ => true | _ => false end.

End Uptime.

(** * Properties *)

(** ** The primitives on examples *)

Example trim_example : Js.trim "  a b  " = "a b".
Proof. reflexivity. Qed.

Example indexOf_examples :
  Js.indexOf "hello @Alice bye" "@Alice" 0 = 6
  /\ Js.indexOf "abcabc" "bc" 2 = 4
  /\ Js.indexOf "abcabc" "bc" (-3) = 1
  /\ Js.indexOf "abcabc" "bc" 5 = -1
  /\ Js.indexOf "abcabc" "bc" 99 = -1.
Proof. repeat split; reflexivity. Qed.

Example lastIndexOf_examples :
  Js.lastIndexOf "abcabc" "bc" = 4 /\ Js.lastIndexOf "abcabc" "x" = -1.
Proof. split; reflexivity. Qed.

Example toLowerCase_example : Js.toLowerCase "Hi ALICE_9" = "hi alice_9".
Proof. reflexivity. Qed.

(** The word in "xbob" is not at a boundary; the one before the full stop is. *)
Example word_match_examples :
  Js.word_match "bob" "xbob BOB. a" = Some 5
  /\ Js.word_match "bob" "bobby" = None
  /\ Js.word_match "bob" EmptyString = None.
Proof. repeat split; reflexivity. Qed.

Example hasLinks_examples :
  hasLinks "see WWW.example.org" = true
  /\ hasLinks "http:/x" = false
  /\ hasLinks "at https://x" = true.
Proof. repeat split; reflexivity. Qed.

(** Case-insensitive match, two at-signs, an empty tag that is skipped, and
    a name found nowhere, which lands at the end of the body. *)
Example build_loop_example :
  offsets (build_loop "hi ALICE and bob."
                      [Mention "@alice" "1" None; Mention " @@Bob " "2" None;
                       Mention " @@ " "3" None; Mention "zed" EmptyString None])
  = [3; 13; 17]
  /\ buildMentionData
       (MentionsArray [Mention "@alice" "1" None; Mention " @@Bob " "2" None;
                       Mention " @@ " "3" None; Mention "zed" EmptyString None])
       "hi ALICE and bob."
     = Some (MentionData "1,2,0" "3,13,17" "5,3,3" "p,p,p")
  /\ buildMentionData_warnings
       (MentionsArray [Mention "@alice" "1" None; Mention " @@Bob " "2" None;
                       Mention " @@ " "3" None; Mention "zed" EmptyString None])
       "hi ALICE and bob."
     = ["Skipping empty mention tag"].
Proof. repeat split; vm_compute; reflexivity. Qed.

Example extractIdsFromPayload_example :
  extractIdsFromPayload demo_payload = Extracted (Some "4242") (Some "mid.77").
Proof. reflexivity. Qed.

(** A matching response: the listener goes, the callback and the promise
    get the identifiers, and the timer that fires later does nothing. *)
Example matching_response_example :
  trace (run demo_parse demo_call
             [Message "/ls_resp" "ACK 456"; Message "/ls_resp" "ACK 550"; Timeout])
  = [On "message" HandleRes;
     Publish "/ls_req" "null" 1 false;
     SetTimeout 15000;
     RemoveListener "message" HandleRes;
     Callback None (Some (Bodies (Some "hello") (Some "mid.77") (Some "4242")));
     Resolve (Bodies (Some "hello") (Some "mid.77") (Some "4242"))].
Proof. reflexivity. Qed.

(** ** Searching in strings *)

Lemma index_range (s2 : string) :
  forall (n : nat) (s1 : string) (m : nat),
    String.index n s1 s2 = Some m ->
    (n <= m)%nat /\ (s1 <> EmptyString -> (m < String.length s2)%nat).
Proof.
  induction s2 as [|b s2 IH]; intros n s1 m H.
  - destruct n; simpl in H; [|discriminate].
    destruct s1; [|discriminate].
    injection H as <-. split; [lia|]. intros Hne; now elim Hne.
  - destruct n as [|n]; simpl in H.
    + match type of H with
      | (if ?c then _ else _) = _ => destruct c
      end.
      * injection H as <-. simpl. split; lia.
      * destruct (String.index 0 s1 s2) as [k|] eqn:E; [|discriminate].
        injection H as <-. destruct (IH _ _ _ E) as [_ Hlt].
        simpl. split; [lia|]. intros Hne. specialize (Hlt Hne). lia.
    + destruct (String.index n s1 s2) as [k|] eqn:E; [|discriminate].
      injection H as <-. destruct (IH _ _ _ E) as [Hle Hlt].
      simpl. split; [lia|]. intros Hne. specialize (Hlt Hne). lia.
Qed.

(** A hit of [indexOf] for a non-empty needle is at or after [pos]. *)
Lemma indexOf_hit (s search : string) (pos : Z) :
  search <> EmptyString ->
  Js.indexOf s search pos <> -1 ->
  pos <= Js.indexOf s search pos /\ 0 <= Js.indexOf s search pos.
Proof.
  intros Hne. unfold Js.indexOf.
  destruct (String.index (Js.clamp s pos) search s) as [k|] eqn:E; [|congruence].
  intros _. destruct (index_range _ _ _ _ E) as [Hle Hlt].
  specialize (Hlt Hne). unfold Js.clamp, Js.len in *. lia.
Qed.

Lemma indexOf_sign (s search : string) (pos : Z) :
  Js.indexOf s search pos = -1 \/ 0 <= Js.indexOf s search pos.
Proof.
  unfold Js.indexOf. destruct (String.index _ _ _); [right; lia | now left].
Qed.

Lemma length_toLowerCase (s : string) :
  String.length (Js.toLowerCase s) = String.length s.
Proof. induction s; simpl; congruence. Qed.

Lemma toLowerCase_nonempty (s : string) :
  s <> EmptyString -> Js.toLowerCase s <> EmptyString.
Proof. destruct s; simpl; [congruence | discriminate]. Qed.

Lemma word_search_from_ge (lit : string) (h : string) :
  forall (k : Z) (prev : option ascii) (r : Z),
    Js.word_search_from k lit prev h = Some r -> k <= r.
Proof.
  induction h as [|c h IH]; intros k prev r H; simpl in H.
  - destruct (_ && _); [injection H as <-; lia | discriminate].
  - destruct (_ && _); [injection H as <-; lia |].
    apply IH in H. lia.
Qed.

Lemma length_trimStart (s : string) :
  (String.length (Js.trimStart s) <= String.length s)%nat.
Proof.
  induction s as [|c s IH]; simpl; [lia|].
  destruct (Js.is_white c); simpl; lia.
Qed.

Lemma length_trimEnd (s : string) :
  (String.length (Js.trimEnd s) <= String.length s)%nat.
Proof.
  induction s as [|c s IH]; simpl; [lia|].
  destruct (Js.trimEnd s); [destruct (Js.is_white c)|]; simpl in *; lia.
Qed.

Lemma length_strip_ats (s : string) :
  (String.length (Js.strip_ats s) <= String.length s)%nat.
Proof.
  induction s as [|c s IH]; simpl; [lia|].
  destruct c as [[] [] [] [] [] [] [] []]; simpl; lia.
Qed.

Lemma len_name_le_raw (m : mention) : Js.len (name_of m) <= Js.len (raw_of m).
Proof.
  unfold name_of, Js.trim, Js.len.
  pose proof (length_trimEnd (Js.trimStart (Js.strip_ats (raw_of m)))).
  pose proof (length_trimStart (Js.strip_ats (raw_of m))).
  pose proof (length_strip_ats (raw_of m)). lia.
Qed.

Lemma raw_nonempty (m : mention) :
  name_of m <> EmptyString -> raw_of m <> EmptyString.
Proof.
  intros Hn Hr. apply Hn. unfold name_of. rewrite Hr. reflexivity.
Qed.

(** ** Mention offsets *)

Lemma strategy1_ok (base : string) (m : mention) (start : Z) (r : Z * Z) :
  name_of m <> EmptyString ->
  hit_ok start r -> hit_ok start (strategy1 base (raw_of m) (name_of m) start r).
Proof.
  intros Hname Hr. unfold strategy1.
  destruct (Js.startsWith _ _); [|exact Hr].
  destruct (Z.eqb_spec (Js.indexOf base (raw_of m) start) (-1)) as [E|E]; simpl.
  - rewrite E. unfold hit_ok. simpl. lia.
  - pose proof (indexOf_hit _ _ start (raw_nonempty m Hname) E).
    pose proof (len_name_le_raw m). unfold hit_ok. simpl. lia.
Qed.

Lemma strategy2_ok (base name : string) (start : Z) (r : Z * Z) :
  name <> EmptyString ->
  hit_ok start r -> hit_ok start (strategy2 base name start r).
Proof.
  intros Hname Hr. unfold strategy2.
  destruct (fst r =? -1); [|exact Hr].
  unfold hit_ok. simpl. intros H0.
  destruct (indexOf_sign base name start) as [E|_]; [lia|].
  assert (E : Js.indexOf base name start <> -1) by lia.
  pose proof (indexOf_hit _ _ start Hname E). lia.
Qed.

Lemma strategy3_ok (base name : string) (start : Z) (r : Z * Z) :
  name <> EmptyString ->
  hit_ok start r -> hit_ok start (strategy3 base name start r).
Proof.
  intros Hname Hr. unfold strategy3.
  destruct (fst r =? -1); [|exact Hr].
  unfold hit_ok. simpl. intros H0.
  assert (E : Js.indexOf (Js.toLowerCase base) (Js.toLowerCase name) start <> -1) by lia.
  pose proof (indexOf_hit _ _ start (toLowerCase_nonempty _ Hname) E). lia.
Qed.

Lemma strategy4_ok (base name : string) (start : Z) (r : Z * Z) :
  hit_ok start r -> hit_ok start (strategy4 base name start r).
Proof.
  intros Hr. unfold strategy4.
  destruct (fst r =? -1); [|exact Hr].
  unfold Js.word_match.
  destruct (Js.word_search_from 0 name None _) as [k|] eqn:E; [|exact Hr].
  apply word_search_from_ge in E. unfold hit_ok. simpl. lia.
Qed.

(** A hit of the forward strategies lies at or after the start position,
    and the adjustment for the at-signs is never negative. *)
Lemma forward_search_hit (base : string) (m : mention) (start : Z) :
  name_of m <> EmptyString ->
  hit_ok start (forward_search base (raw_of m) (name_of m) start).
Proof.
  intros Hname. unfold forward_search.
  apply strategy4_ok, strategy3_ok, strategy2_ok, strategy1_ok; auto.
  unfold hit_ok. simpl. lia.
Qed.

Lemma nondecreasing_snoc (l : list Z) (x : Z) :
  nondecreasing l = true ->
  Forall (fun o => o <= x) l ->
  nondecreasing (l ++ [x]) = true.
Proof.
  induction l as [|a l IH]; intros Hs Hall; [reflexivity|].
  inversion Hall as [|? ? Ha Hl]; subst.
  destruct l as [|b l].
  - simpl. rewrite (proj2 (Z.leb_le _ _) Ha). reflexivity.
  - simpl in Hs. apply andb_prop in Hs as [Hab Hs].
    change ((a <=? b) && nondecreasing ((b :: l) ++ [x]) = true).
    rewrite Hab, IH; auto.
Qed.

Lemma build_step_in_order (base : string) (st : build_state) (m : mention) :
  behind_cursor st ->
  String.eqb (name_of m) EmptyString
  || ((cursor st <=? start_of m (cursor st))
      && (0 <=? fst (forward_search base (raw_of m) (name_of m)
                                    (start_of m (cursor st))))) = true ->
  behind_cursor (build_step base st m).
Proof.
  intros [Hs Hall] H. unfold build_step.
  destruct (String.eqb_spec (name_of m) EmptyString) as [E|E].
  - split; assumption.
  - simpl in H. apply andb_prop in H as [Hstart Hidx].
    apply Z.leb_le in Hstart, Hidx.
    pose proof (forward_search_hit base m (start_of m (cursor st)) E Hidx) as [Hge Hadj].
    unfold locate.
    destruct (forward_search base (raw_of m) (name_of m) (start_of m (cursor st)))
      as [idx adj].
    simpl in Hidx, Hge, Hadj.
    rewrite (proj2 (Z.ltb_ge _ _) Hidx).
    assert (Hlen : 0 <= Js.len (name_of m)) by (unfold Js.len; lia).
    split; simpl.
    + apply nondecreasing_snoc; [assumption|].
      eapply Forall_impl; [|exact Hall]. simpl. intros; lia.
    + apply Forall_app. split.
      * eapply Forall_impl; [|exact Hall]. simpl. intros; lia.
      * constructor; [lia | constructor].
Qed.

Lemma build_fold_in_order (base : string) (ms : list mention) :
  forall st : build_state,
    behind_cursor st ->
    found_in_order base st ms = true ->
    behind_cursor (fold_left (build_step base) ms st).
Proof.
  induction ms as [|m ms IH]; intros st Hst H; [exact Hst|].
  simpl in H. apply andb_prop in H as [Hm Hrest].
  simpl. apply IH; [|exact Hrest].
  apply build_step_in_order; assumption.
Qed.

Lemma buildMentionData_alice_eval :
  buildMentionData (MentionsArray [Mention "@Alice" "1" None]) "hello @Alice bye"
  = Some (MentionData "1" "7" "5" "p").
Proof. vm_compute. reflexivity. Qed.

(** C1 (as the code has it). For the body "hello @Alice bye" and the single
    mention with tag "@Alice", id "1" and no fromIndex, buildMentionData
    yields mention_offsets "7" and mention_lengths "5": the at-sign is found
    at index 6 and the offset is moved past it to the name. *)
Theorem buildMentionData_alice :
  buildMentionData (MentionsArray [Mention "@Alice" "1" None]) "hello @Alice bye"
  = Some (MentionData "1" "7" "5" "p").
Proof. vm_compute. reflexivity. Qed.

(** C1 as stated fails: the offset reported for that input is not "6". *)
Lemma buildMentionData_alice_not_6 :
  ~ (exists d : mention_data,
        buildMentionData (MentionsArray [Mention "@Alice" "1" None]) "hello @Alice bye"
        = Some d
        /\ mention_offsets d = "6" /\ mention_lengths d = "5").
Proof.
  intros [d [H [Hoff _]]]. rewrite buildMentionData_alice_eval in H.
  injection H as <-. discriminate Hoff.
Qed.

(** C5 (as the code has it). When every mention with a non-empty name
    starts its search at or after the shared cursor (it has no fromIndex, or
    one that is not before the cursor) and is found by one of the forward
    strategies 1 to 4, the offsets produced by buildMentionData are
    non-decreasing in input order. *)
Theorem offsets_nondecreasing_in_order (base : string) (ms : list mention) :
  found_in_order base build_init ms = true ->
  nondecreasing (offsets (build_loop base ms)) = true.
Proof.
  intros H. unfold build_loop.
  apply (build_fold_in_order base ms build_init); [|exact H].
  split; [reflexivity | constructor].
Qed.

Lemma offsets_nondecreasing_in_order_witness :
  found_in_order "hi ALICE and bob."
                 build_init
                 [Mention "@alice" "1" None; Mention " @Bob " "2" None] = true
  /\ nondecreasing
       (offsets (build_loop "hi ALICE and bob."
                            [Mention "@alice" "1" None; Mention " @Bob " "2" None]))
     = true.
Proof.
  split.
  - vm_compute. reflexivity.
  - apply (offsets_nondecreasing_in_order
             "hi ALICE and bob."
             [Mention "@alice" "1" None; Mention " @Bob " "2" None]).
    vm_compute. reflexivity.
Defined.

(** C5 as stated fails: in the body "Bob Alice" both names can be located,
    yet for the mentions Alice, Bob the second search starts behind "Bob",
    falls back to the last occurrence anywhere, and the offsets are 4, 0. *)
Lemma offsets_decrease_bob_alice :
  forallb (locatable "Bob Alice")
          [Mention "Alice" "1" None; Mention "Bob" "2" None] = true
  /\ offsets (build_loop "Bob Alice"
                         [Mention "Alice" "1" None; Mention "Bob" "2" None]) = [4; 0]
  /\ nondecreasing
       (offsets (build_loop "Bob Alice"
                            [Mention "Alice" "1" None; Mention "Bob" "2" None]))
     = false.
Proof. repeat split; vm_compute; reflexivity. Qed.

(** ** The correlator *)

Section CorrelatorFacts.

Variable JSON_parse : string -> option json.
Variable JSON_stringify : json -> string.

(** *** Frames that are skipped *)

Lemma decode_none_of_skipped (reqID : Z) (message : string) :
  skipped JSON_parse reqID message ->
  match decode JSON_parse message with
  | None => True
  | Some (jsonMsg, _) => Json.is_int (Json.prop jsonMsg "request_id") reqID = false
  end.
Proof.
  intros [H | jsonMsg H Hp | jsonMsg H Hid]; unfold decode; rewrite H.
  - exact I.
  - destruct Hp as [-> | [Hp | [p [Hp Hq]]]].
    + exact I.
    + rewrite Hp. now destruct jsonMsg.
    + rewrite Hp, Hq. now destruct jsonMsg.
  - destruct jsonMsg; try exact I;
      destruct (Json.prop _ "payload"); try exact I;
      destruct (JSON_parse (Json.to_string _)); try exact I; exact Hid.
Qed.

Lemma handleRes_skips (topic message : string) (st : pending) :
  skipped JSON_parse (p_reqID st) message ->
  handleRes JSON_parse topic message st = st.
Proof.
  intros H. apply decode_none_of_skipped in H. unfold handleRes.
  destruct (negb (String.eqb topic "/ls_resp")); [reflexivity|].
  destruct (decode JSON_parse message) as [[jsonMsg payload]|]; [|reflexivity].
  rewrite H. reflexivity.
Qed.

(** Calling a function that returns its argument for every listener
    returns the state. *)
Lemma fold_left_fixed {A B : Type} (f : A -> B -> A) (a : A) (l : list B) :
  (forall b : B, f a b = a) -> fold_left f l a = a.
Proof.
  intros H. induction l as [|b l IH]; simpl; [reflexivity|].
  rewrite H. exact IH.
Qed.

Lemma deliver_skips (topic message : string) (st : pending) :
  skipped JSON_parse (p_reqID st) message ->
  deliver JSON_parse topic message st = st.
Proof.
  intros H. unfold deliver. apply fold_left_fixed.
  intros [|n]; [apply handleRes_skips; exact H | reflexivity].
Qed.

(** C2. A message on the response channel that fails the outer decode,
    fails the decode of its payload, or carries a request_id other than
    the identifier of the call leaves the call as it was: the promise is
    not settled, the callback is not called, nothing is logged or thrown. *)
Theorem unmatched_frame_is_skipped (st : pending) (message : string) :
  skipped JSON_parse (p_reqID st) message ->
  step JSON_parse st (Message "/ls_resp" message) = st.
Proof. intros H. simpl. apply deliver_skips. exact H. Qed.

(** *** What later handlers cannot undo *)

Lemma extends_refl (st : pending) : extends st st.
Proof. constructor; auto. Qed.

Lemma extends_trans (a b c : pending) : extends a b -> extends b c -> extends a c.
Proof.
  intros [t1 r1 c1 d1 p1] [t2 r2 c2 d2 p2].
  constructor; auto; congruence.
Qed.

Lemma emit_extends (es : list effect) (st : pending) : extends st (emit es st).
Proof. constructor; auto. Qed.

Lemma settle_extends (s : settlement) (st : pending) : extends st (settle s st).
Proof.
  constructor; auto. simpl. intros s0 H. rewrite H. reflexivity.
Qed.

Lemma cleanup_extends (st : pending) : extends st (cleanup st).
Proof.
  unfold cleanup. destruct (done st) eqn:E; constructor; simpl; auto.
Qed.

Lemma cleanup_done (st : pending) : done (cleanup st) = true.
Proof. unfold cleanup. destruct (done st) eqn:E; simpl; auto. Qed.

Lemma notify_then_extends (err : option error) (data : option bodies)
      (k : pending -> pending) (st : pending) :
  (forall st0 : pending, extends st0 (k st0)) ->
  extends st (notify_then err data k st).
Proof.
  intros Hk. unfold notify_then.
  destruct (truthy (p_callback st)); [|apply Hk].
  destruct (invoke (p_callback st) err data) as [es|].
  - eapply extends_trans; [apply emit_extends | apply Hk].
  - apply emit_extends.
Qed.

Lemma handleRes_extends (topic message : string) (st : pending) :
  extends st (handleRes JSON_parse topic message st).
Proof.
  unfold handleRes.
  destruct (negb _); [apply extends_refl|].
  destruct (decode JSON_parse message) as [[jsonMsg payload]|]; [|apply extends_refl].
  destruct (negb _); [apply extends_refl|].
  eapply extends_trans; [apply cleanup_extends|].
  apply notify_then_extends. intros st0. apply settle_extends.
Qed.

Lemma on_published_extends (err : option error) (st : pending) :
  extends st (on_published err st).
Proof.
  destruct err as [e|]; simpl; [|apply extends_refl].
  eapply extends_trans; [apply cleanup_extends|].
  apply notify_then_extends. intros st0. apply settle_extends.
Qed.

Lemma on_timeout_extends (st : pending) : extends st (on_timeout st).
Proof.
  unfold on_timeout. destruct (done st); [apply extends_refl|].
  eapply extends_trans; [apply cleanup_extends|].
  apply notify_then_extends. intros st0. apply settle_extends.
Qed.

Lemma fold_left_extends {B : Type} (f : pending -> B -> pending) (l : list B) :
  (forall (st : pending) (b : B), extends st (f st b)) ->
  forall st : pending, extends st (fold_left f l st).
Proof.
  intros Hf. induction l as [|b l IH]; intros st; simpl.
  - apply extends_refl.
  - eapply extends_trans; [apply Hf | apply IH].
Qed.

Lemma deliver_extends (topic message : string) (st : pending) :
  extends st (deliver JSON_parse topic message st).
Proof.
  unfold deliver. apply fold_left_extends.
  intros st0 [|n]; [apply handleRes_extends | apply extends_refl].
Qed.

Lemma step_extends (st : pending) (ev : event) : extends st (step JSON_parse st ev).
Proof.
  destruct ev; simpl.
  - apply deliver_extends.
  - apply on_published_extends.
  - apply on_timeout_extends.
Qed.

Lemma run_extends (evs : list event) (st : pending) :
  extends st (run JSON_parse st evs).
Proof. unfold run. apply fold_left_extends. apply step_extends. Qed.

Lemma run_app (st : pending) (evs1 evs2 : list event) :
  run JSON_parse st (evs1 ++ evs2) = run JSON_parse (run JSON_parse st evs1) evs2.
Proof. unfold run. apply fold_left_app. Qed.

Lemma on_timeout_done (st : pending) : done (on_timeout st) = true.
Proof.
  unfold on_timeout. destruct (done st) eqn:E; [exact E|].
  apply (e_done (cleanup st)); [|apply cleanup_done].
  apply notify_then_extends. intros st0. apply settle_extends.
Qed.

(** *** The listener table and the trace *)

Lemma count_app (f : effect -> bool) (a b : list effect) :
  count f (a ++ b) = (count f a + count f b)%nat.
Proof. unfold count. rewrite filter_app, length_app. reflexivity. Qed.

Lemma count_none (f g : effect -> bool) (l : list effect) :
  (forall e : effect, f e = true -> g e = false) ->
  forallb g l = true -> count f l = 0%nat.
Proof.
  intros Hfg. unfold count. induction l as [|e l IH]; simpl; [reflexivity|].
  intros H. apply andb_prop in H as [He Hl].
  destruct (f e) eqn:E; [rewrite (Hfg e E) in He; discriminate | auto].
Qed.

Lemma quiet_late (es : list effect) :
  quiet es = true -> forallb (fun e => negb (at_start e)) es = true.
Proof.
  unfold quiet. induction es as [|e es IH]; simpl; [reflexivity|].
  intros H. apply andb_prop in H as [He Hes]. apply andb_prop in He as [-> _].
  simpl. auto.
Qed.

Lemma quiet_no_remove (es : list effect) :
  quiet es = true -> count is_remove es = 0%nat.
Proof.
  intros H. apply (count_none _ _ es) with (2 := H).
  intros e He. rewrite He. apply andb_false_r.
Qed.

Lemma removeListener_last (others : list nat) :
  removeListener HandleRes (map Other others ++ [HandleRes]) = map Other others.
Proof.
  unfold removeListener. rewrite rev_app_distr. simpl. apply rev_involutive.
Qed.

Section Consistency.

Variable others : list nat.
Variable start : list effect.

Lemma emit_consistent (es : list effect) (st : pending) :
  quiet es = true ->
  consistent others start st -> consistent others start (emit es st).
Proof.
  intros Hq [Hl [rest [Ht [Hlate Hrem]]]]. constructor; simpl; [exact Hl|].
  exists (rest ++ es). rewrite Ht, app_assoc. split; [reflexivity|]. split.
  - rewrite forallb_app, Hlate. simpl. apply quiet_late, Hq.
  - rewrite count_app, Hrem, (quiet_no_remove es Hq). lia.
Qed.

Lemma settle_consistent (s : settlement) (st : pending) :
  consistent others start st -> consistent others start (settle s st).
Proof.
  intros H.
  apply (emit_consistent [match s with Fulfilled b => Resolve b | Rejected e => Reject e end])
    in H; [|now destruct s].
  destruct H as [Hl Ht]. constructor; simpl in *; assumption.
Qed.

Lemma cleanup_consistent (st : pending) :
  consistent others start st -> consistent others start (cleanup st).
Proof.
  intros H. unfold cleanup. destruct (done st) eqn:E; [exact H|].
  destruct H as [Hl [rest [Ht [Hlate Hrem]]]]. rewrite E in *.
  constructor; simpl.
  - rewrite Hl, removeListener_last, app_nil_r. reflexivity.
  - exists (rest ++ [RemoveListener "message" HandleRes]).
    rewrite Ht, app_assoc. split; [reflexivity|]. split.
    + rewrite forallb_app, Hlate. reflexivity.
    + rewrite count_app, Hrem. reflexivity.
Qed.

Lemma invoke_quiet (cb : callback) (err : option error) (data : option bodies)
      (es : list effect) :
  invoke cb err data = Some es -> quiet es = true.
Proof.
  destruct cb; simpl; intros H; try discriminate; injection H as <-;
    [reflexivity | now destruct err].
Qed.

Lemma notify_then_consistent (err : option error) (data : option bodies)
      (k : pending -> pending) (st : pending) :
  (forall st0 : pending, consistent others start st0 -> consistent others start (k st0)) ->
  consistent others start st ->
  consistent others start (notify_then err data k st).
Proof.
  intros Hk H. unfold notify_then.
  destruct (truthy (p_callback st)); [|apply Hk, H].
  destruct (invoke (p_callback st) err data) as [es|] eqn:E.
  - apply Hk, emit_consistent; [apply (invoke_quiet _ _ _ _ E) | exact H].
  - apply emit_consistent; [reflexivity | exact H].
Qed.

Lemma handleRes_consistent (topic message : string) (st : pending) :
  consistent others start st ->
  consistent others start (handleRes JSON_parse topic message st).
Proof.
  intros H. unfold handleRes.
  destruct (negb _); [exact H|].
  destruct (decode JSON_parse message) as [[jsonMsg payload]|]; [|exact H].
  destruct (negb _); [exact H|].
  apply notify_then_consistent; [intros st0; apply settle_consistent|].
  apply cleanup_consistent, H.
Qed.

Lemma on_published_consistent (err : option error) (st : pending) :
  consistent others start st -> consistent others start (on_published err st).
Proof.
  intros H. destruct err as [e|]; simpl; [|exact H].
  apply notify_then_consistent; [intros st0; apply settle_consistent|].
  apply cleanup_consistent, H.
Qed.

Lemma on_timeout_consistent (st : pending) :
  consistent others start st -> consistent others start (on_timeout st).
Proof.
  intros H. unfold on_timeout. destruct (done st); [exact H|].
  apply notify_then_consistent; [intros st0; apply settle_consistent|].
  apply cleanup_consistent, H.
Qed.

Lemma fold_left_consistent {B : Type} (f : pending -> B -> pending) (l : list B) :
  (forall (st : pending) (b : B),
      consistent others start st -> consistent others start (f st b)) ->
  forall st : pending,
    consistent others start st -> consistent others start (fold_left f l st).
Proof.
  intros Hf. induction l as [|b l IH]; intros st H; simpl; [exact H|].
  apply IH, Hf, H.
Qed.

Lemma step_consistent (st : pending) (ev : event) :
  consistent others start st -> consistent others start (step JSON_parse st ev).
Proof.
  intros H. destruct ev; simpl.
  - unfold deliver. apply fold_left_consistent; [|exact H].
    intros st0 [|n] H0; [apply handleRes_consistent, H0 | exact H0].
  - apply on_published_consistent, H.
  - apply on_timeout_consistent, H.
Qed.

Lemma run_consistent (evs : list event) (st : pending) :
  consistent others start st -> consistent others start (run JSON_parse st evs).
Proof. unfold run. apply fold_left_consistent. apply step_consistent. Qed.

(** Listeners of other origin leave the call alone. *)
Lemma deliver_to_others (topic message : string) (st : pending) :
  fold_left (fun st0 l =>
               match l with
               | HandleRes => handleRes JSON_parse topic message st0
               | Other _ => st0
               end) (map Other others) st = st.
Proof.
  induction others as [|n l IH]; simpl; [reflexivity | exact IH].
Qed.

(** While the listener is registered the emission reaches [handleRes]
    once; afterwards it reaches nothing of this call. *)
Lemma deliver_consistent_eq (topic message : string) (st : pending) :
  consistent others start st ->
  deliver JSON_parse topic message st
  = if done st then st else handleRes JSON_parse topic message st.
Proof.
  intros [Hl _]. unfold deliver. rewrite Hl, fold_left_app, deliver_to_others.
  destruct (done st); reflexivity.
Qed.

Lemma handleRes_match_done (message : string) (st : pending) :
  matches JSON_parse (p_reqID st) message = true ->
  done (handleRes JSON_parse "/ls_resp" message st) = true.
Proof.
  unfold matches, handleRes. simpl.
  destruct (decode JSON_parse message) as [[jsonMsg payload]|]; [|discriminate].
  intros ->. simpl.
  match goal with
  | |- done (notify_then ?e ?d ?k ?s) = true =>
      apply (e_done s); [|apply cleanup_done];
      apply notify_then_extends; intros st0; apply settle_extends
  end.
Qed.

Lemma step_exit_done (st : pending) (ev : event) :
  consistent others start st ->
  is_exit JSON_parse (p_reqID st) ev = true ->
  done (step JSON_parse st ev) = true.
Proof.
  intros H Hex. destruct ev as [topic message | [e|] | ]; simpl in *.
  - apply andb_prop in Hex as [Ht Hm]. apply String.eqb_eq in Ht. subst topic.
    rewrite (deliver_consistent_eq _ _ _ H).
    destruct (done st) eqn:E; [exact E | apply handleRes_match_done, Hm].
  - apply (e_done (cleanup st)); [|apply cleanup_done].
    apply notify_then_extends; intros st0; apply settle_extends.
  - discriminate.
  - apply on_timeout_done.
Qed.

Lemma run_exit_done (evs : list event) :
  forall st : pending,
    consistent others start st ->
    existsb (is_exit JSON_parse (p_reqID st)) evs = true ->
    done (run JSON_parse st evs) = true.
Proof.
  induction evs as [|ev evs IH]; intros st H Hex; [discriminate|].
  simpl in Hex. change (done (run JSON_parse (step JSON_parse st ev) evs) = true).
  destruct (is_exit JSON_parse (p_reqID st) ev) eqn:E.
  - apply (e_done (step JSON_parse st ev)); [apply run_extends|].
    apply step_exit_done; assumption.
  - simpl in Hex. apply IH; [apply step_consistent, H|].
    rewrite (e_reqID _ _ (step_extends st ev)). exact Hex.
Qed.

(** The three handlers share their tail: [cleanup], the callback, the
    settlement. From a state with [done] unset it removes the listener and
    calls [resolve] or [reject] at most once. *)
Lemma exit_tail_trace (err : option error) (data : option bodies) (s : settlement)
      (st : pending) :
  done st = false ->
  exists es : list effect,
    trace (notify_then err data (settle s) (cleanup st))
    = trace st ++ RemoveListener "message" HandleRes :: es
    /\ (count is_settle es <= 1)%nat.
Proof.
  intros Hd. unfold cleanup. rewrite Hd. unfold notify_then. simpl.
  destruct (truthy (p_callback st)).
  - destruct (invoke (p_callback st) err data) as [es|] eqn:E; simpl.
    + exists (es ++ [match s with Fulfilled b => Resolve b | Rejected e => Reject e end]).
      split; [rewrite <- !app_assoc; reflexivity|].
      rewrite count_app.
      assert (count is_settle es = 0%nat) as ->.
      { destruct (p_callback st); simpl in E; try discriminate;
          injection E as <-; [reflexivity | now destruct err]. }
      destruct s; unfold count; simpl; lia.
    + exists [Throw not_a_function].
      split; [rewrite <- !app_assoc; reflexivity|]. unfold count. simpl. lia.
  - exists [match s with Fulfilled b => Resolve b | Rejected e => Reject e end].
    split; [simpl; rewrite <- !app_assoc; reflexivity|].
    destruct s; unfold count; simpl; lia.
Qed.

Lemma exit_tail_settled_once (err : option error) (data : option bodies)
      (s : settlement) (st : pending) :
  done st = false -> settled_once st ->
  settled_once (notify_then err data (settle s) (cleanup st)).
Proof.
  intros Hd H. unfold settled_once in *. rewrite Hd in H.
  destruct (exit_tail_trace err data s st Hd) as [es [-> Hes]].
  rewrite count_app.
  assert (done (notify_then err data (settle s) (cleanup st)) = true) as ->.
  { apply (e_done (cleanup st)); [|apply cleanup_done].
    apply notify_then_extends; intros st0; apply settle_extends. }
  change (count is_settle (RemoveListener "message" HandleRes :: es))
    with (count is_settle es). lia.
Qed.

Lemma step_settled_once (st : pending) (ev : event) :
  consistent others start st ->
  is_publish_error ev = false ->
  settled_once st -> settled_once (step JSON_parse st ev).
Proof.
  intros Hc Hev H. destruct ev as [topic message | [e|] | ]; simpl in *.
  - rewrite (deliver_consistent_eq _ _ _ Hc).
    destruct (done st) eqn:Hd; [exact H|]. unfold handleRes.
    destruct (negb _); [exact H|].
    destruct (decode JSON_parse message) as [[jsonMsg payload]|]; [|exact H].
    destruct (negb _); [exact H|].
    apply exit_tail_settled_once; assumption.
  - discriminate.
  - exact H.
  - unfold on_timeout. destruct (done st) eqn:Hd; [exact H|].
    apply exit_tail_settled_once; assumption.
Qed.

Lemma run_settled_once (evs : list event) :
  forall st : pending,
    consistent others start st ->
    existsb is_publish_error evs = false ->
    settled_once st -> settled_once (run JSON_parse st evs).
Proof.
  induction evs as [|ev evs IH]; intros st Hc Hev H; [exact H|].
  simpl in Hev. apply orb_false_elim in Hev as [Hev Hevs].
  change (settled_once (run JSON_parse (step JSON_parse st ev) evs)).
  apply IH; [apply step_consistent, Hc | exact Hevs|].
  apply step_settled_once; assumption.
Qed.

End Consistency.

(** *** One call of publishWithAck *)

Section OneCall.

Variable others : list nat.
Variable content : json.
Variable text : string.
Variable reqID : Z.
Variable cb : callback.

Local Notation "'p0'" := (publishWithAck JSON_stringify others content text reqID cb).

Lemma start_consistent : consistent others (trace p0) p0.
Proof.
  constructor; [reflexivity|].
  exists []. rewrite app_nil_r. repeat split; reflexivity.
Qed.

Lemma reached_consistent (evs : list event) :
  consistent others (trace p0) (run JSON_parse p0 evs).
Proof. apply run_consistent, start_consistent. Qed.

Lemma reached_reqID (evs : list event) : p_reqID (run JSON_parse p0 evs) = reqID.
Proof. apply (e_reqID _ _ (run_extends evs p0)). Qed.

Lemma exit_done (evs : list event) :
  existsb (is_exit JSON_parse reqID) evs = true ->
  done (run JSON_parse p0 evs) = true.
Proof.
  intros H. apply (run_exit_done others (trace p0)); [apply start_consistent | exact H].
Qed.

(** C3. The promise of a call settles at most once: whatever events
    follow a settlement, the promise keeps it; once the timer has fired, a
    message on any topic, matching or not, changes nothing; and resolve and
    reject are called at most once altogether unless a publish error
    arrives, whose call of reject a settled promise ignores. *)
Theorem promise_settles_at_most_once :
  (forall (evs1 evs2 : list event) (s : settlement),
      promise (run JSON_parse p0 evs1) = Some s ->
      promise (run JSON_parse p0 (evs1 ++ evs2)) = Some s)
  /\ (forall (evs : list event) (topic message : string),
         In Timeout evs ->
         step JSON_parse (run JSON_parse p0 evs) (Message topic message)
         = run JSON_parse p0 evs)
  /\ (forall evs : list event,
         existsb is_publish_error evs = false ->
         (count is_settle (trace (run JSON_parse p0 evs)) <= 1)%nat).
Proof.
  split; [|split].
  - intros evs1 evs2 s H. rewrite run_app.
    apply (e_promise _ _ (run_extends evs2 _)). exact H.
  - intros evs topic message Hin. simpl.
    rewrite (deliver_consistent_eq _ _ _ _ _ (reached_consistent evs)).
    rewrite exit_done; [reflexivity|].
    apply existsb_exists. exists Timeout. split; [exact Hin | reflexivity].
  - intros evs Hev.
    assert (H : settled_once (run JSON_parse p0 evs)).
    { apply (run_settled_once others (trace p0)); [apply start_consistent | exact Hev|].
      unfold settled_once, count. simpl. lia. }
    unfold settled_once in H. destruct (done _); lia.
Qed.


(** C8. The executor registers the listener, then publishes, then arms
    the timer; no later handler registers or publishes again. When the
    call returns, before any event can be delivered, the listener is in
    the table. *)
Theorem listener_registered_before_publish (evs : list event) :
  In HandleRes (listeners p0)
  /\ exists rest : list effect,
      trace (run JSON_parse p0 evs)
      = On "message" HandleRes
          :: Publish "/ls_req" (JSON_stringify content) 1 false
          :: SetTimeout 15000 :: rest
      /\ forallb (fun e => negb (at_start e)) rest = true.
Proof.
  split.
  - simpl. apply in_or_app. right. left. reflexivity.
  - destruct (reached_consistent evs) as [_ [rest [Ht [Hlate _]]]].
    exists rest. split; [exact Ht | exact Hlate].
Qed.

End OneCall.

(** C6 at the failing input. With a callback of the caller, the timer
    fires and the transport then reports a publish error: the callback is
    called with the timeout and called again with the publish error, and
    reject is called for both, although the promise keeps the timeout. In
    the other order the timer is suppressed. *)
Theorem timeout_then_publish_error (others : list nat) (content : json)
        (text : string) (reqID : Z) (e : error) :
  trace (run JSON_parse
             (publishWithAck JSON_stringify others content text reqID UserFunction)
             [Timeout; Published (Some e)])
  = [On "message" HandleRes;
     Publish "/ls_req" (JSON_stringify content) 1 false;
     SetTimeout 15000;
     RemoveListener "message" HandleRes;
     Callback (Some timeout_error) None; Reject timeout_error;
     Callback (Some e) None; Reject e]
  /\ promise (run JSON_parse
                  (publishWithAck JSON_stringify others content text reqID UserFunction)
                  [Timeout; Published (Some e)])
     = Some (Rejected timeout_error)
  /\ run JSON_parse
         (publishWithAck JSON_stringify others content text reqID UserFunction)
         [Published (Some e); Timeout]
     = run JSON_parse
           (publishWithAck JSON_stringify others content text reqID UserFunction)
           [Published (Some e)].
Proof. repeat split. Qed.

End CorrelatorFacts.

(** ** The correlation identifier *)

(** The shape of a number with more than 53 bits: [X = q * 2^s + r] with
    [2^52 <= q < 2^53] and [0 <= r < 2^s], for [s = log2 X - 52 >= 1]. *)
Lemma split_large (X : Z) :
  2 ^ 53 <= X ->
  let s := Z.log2 X - 52 in
  1 <= s
  /\ X = (X / 2 ^ s) * 2 ^ s + X mod 2 ^ s
  /\ 0 <= X mod 2 ^ s < 2 ^ s
  /\ 2 ^ 52 <= X / 2 ^ s < 2 ^ 53
  /\ 2 ^ s = 2 * 2 ^ (s - 1)
  /\ 0 < 2 ^ (s - 1).
Proof.
  intros HX s.
  assert (Hpos : 0 < X) by (pose proof (Z.pow_pos_nonneg 2 53); lia).
  assert (Hs : 1 <= s).
  { unfold s. assert (53 <= Z.log2 X) by (apply Z.log2_le_pow2; lia). lia. }
  assert (Hp : 0 < 2 ^ s) by (apply Z.pow_pos_nonneg; lia).
  destruct (Z.log2_spec X Hpos) as [Hlo Hhi].
  replace (Z.log2 X) with (52 + s) in Hlo by (unfold s; lia).
  replace (Z.succ (Z.log2 X)) with (53 + s) in Hhi by (unfold s; lia).
  rewrite Z.pow_add_r in Hlo, Hhi by lia.
  repeat split.
  - exact Hs.
  - rewrite Z.mul_comm. apply Z.div_mod. lia.
  - apply Z.mod_pos_bound, Hp.
  - apply Z.mod_pos_bound, Hp.
  - apply Z.div_le_lower_bound; lia.
  - apply Z.div_lt_upper_bound; lia.
  - replace s with (1 + (s - 1)) at 1 by lia. rewrite Z.pow_add_r by lia. reflexivity.
  - apply Z.pow_pos_nonneg; lia.
Qed.

(** A double at or above [2^(52+k)] is a multiple of [2^k]. *)
Lemma double_grid (D k : Z) :
  B64.is_double D = true -> 1 <= k -> 2 ^ (52 + k) <= D -> (2 ^ k | D).
Proof.
  intros Hd Hk HD. unfold B64.is_double in Hd.
  apply andb_prop in Hd as [H0 Hd]. apply Z.leb_le in H0.
  assert (Hpos : 0 < D) by (pose proof (Z.pow_pos_nonneg 2 (52 + k)); lia).
  assert (H53 : 2 ^ 53 <= D).
  { apply Z.le_trans with (2 := HD). apply Z.pow_le_mono_r; lia. }
  apply orb_prop in Hd as [Hd|Hd]; [apply Z.ltb_lt in Hd; lia|].
  apply Z.eqb_eq in Hd.
  assert (Hlog : 52 + k <= Z.log2 D) by (apply Z.log2_le_pow2; lia).
  apply Z.mod_divide in Hd;
    [|pose proof (Z.pow_pos_nonneg 2 (Z.log2 D - 52)); lia].
  apply Z.divide_trans with (2 := Hd).
  exists (2 ^ (Z.log2 D - 52 - k)). rewrite <- Z.pow_add_r by lia.
  f_equal. lia.
Qed.

(** The rounded value is the multiple of [2^s] below or above [X],
    whichever is nearer. *)
Lemma round_large (X : Z) :
  2 ^ 53 <= X ->
  let s := Z.log2 X - 52 in
  let q := X / 2 ^ s in
  let r := X mod 2 ^ s in
  (B64.round X = q * 2 ^ s /\ 2 * r <= 2 ^ s)
  \/ (B64.round X = (q + 1) * 2 ^ s /\ 2 ^ s <= 2 * r).
Proof.
  intros HX s q r.
  destruct (split_large X HX) as (Hs & Heq & Hr & Hq & Hhalf & Hhpos).
  fold s in Hs, Heq, Hr, Hq, Hhalf, Hhpos. fold q in Heq, Hq. fold r in Heq, Hr.
  unfold B64.round. rewrite (proj2 (Z.ltb_ge _ _) HX).
  fold s. fold q. fold r.
  destruct (Z.ltb_spec r (2 ^ (s - 1))); [left; split; [reflexivity | lia]|].
  destruct (Z.ltb_spec (2 ^ (s - 1)) r); [right; split; [reflexivity | lia]|].
  destruct (Z.even q); [left | right]; split; try reflexivity; lia.
Qed.

(** Rounding yields a double. *)
Lemma round_is_double (X : Z) : 0 <= X -> B64.is_double (B64.round X) = true.
Proof.
  intros H0. destruct (Z.lt_ge_cases X (2 ^ 53)) as [Hsmall|HX].
  - unfold B64.round. rewrite (proj2 (Z.ltb_lt _ _) Hsmall).
    unfold B64.is_double. rewrite (proj2 (Z.leb_le _ _) H0), (proj2 (Z.ltb_lt _ _) Hsmall).
    reflexivity.
  - destruct (split_large X HX) as (Hs & Heq & Hr & Hq & Hhalf & Hhpos).
    set (s := Z.log2 X - 52) in *. set (q := X / 2 ^ s) in *.
    assert (Hp : 0 < 2 ^ s) by (apply Z.pow_pos_nonneg; lia).
    assert (Hshape : forall q' : Z, 2 ^ 52 <= q' <= 2 ^ 53 ->
                                    B64.is_double (q' * 2 ^ s) = true).
    { intros q' Hq'. unfold B64.is_double.
      assert (Hq'pos : 0 < q') by (pose proof (Z.pow_pos_nonneg 2 52); lia).
      rewrite (proj2 (Z.leb_le 0 (q' * 2 ^ s))) by nia.
      apply orb_true_iff. right. apply Z.eqb_eq.
      rewrite Z.log2_mul_pow2 by lia.
      destruct (Z.eq_dec q' (2 ^ 53)) as [->|Hne].
      - rewrite Z.log2_pow2 by lia.
        replace (s + 53 - 52) with (s + 1) by lia.
        rewrite <- Z.pow_add_r by lia. replace (53 + s) with (52 + (s + 1)) by lia.
        rewrite Z.pow_add_r by lia. apply Z.mod_mul.
        pose proof (Z.pow_pos_nonneg 2 (s + 1)). lia.
      - assert (Hl : Z.log2 q' = 52).
        { apply Z.log2_unique; [lia|]. change (Z.succ 52) with 53. lia. }
        rewrite Hl. replace (s + 52 - 52) with s by lia.
        apply Z.mod_mul. lia. }
    destruct (round_large X HX) as [[-> _] | [-> _]]; apply Hshape; fold s q; lia.
Qed.

(** No double is nearer to [X] than [round X]. *)
Lemma round_nearest (X D : Z) :
  0 <= X -> B64.is_double D = true ->
  Z.abs (B64.round X - X) <= Z.abs (D - X).
Proof.
  intros H0 HD. destruct (Z.lt_ge_cases X (2 ^ 53)) as [Hsmall|HX].
  - unfold B64.round. rewrite (proj2 (Z.ltb_lt _ _) Hsmall). lia.
  - destruct (split_large X HX) as (Hs & Heq & Hr & Hq & Hhalf & Hhpos).
    pose proof (round_large X HX) as Hround.
    set (s := Z.log2 X - 52) in *. set (q := X / 2 ^ s) in *.
    set (r := X mod 2 ^ s) in *.
    assert (Hmin : Z.abs (B64.round X - X) <= r
                   /\ Z.abs (B64.round X - X) <= 2 ^ s - r).
    { destruct Hround as [[-> Hle] | [-> Hle]]; split; lia. }
    destruct (Z.lt_ge_cases D (2 ^ (52 + s))) as [Hlow|Hhigh].
    + rewrite Z.pow_add_r in Hlow by lia. nia.
    + destruct (double_grid D s HD Hs Hhigh) as [k ->].
      destruct (Z.le_gt_cases k q); nia.
Qed.

Lemma one_ulp1 : B64.one = 2 ^ 53 * ulp1.
Proof. unfold B64.one, ulp1. rewrite <- Z.pow_add_r by lia. reflexivity. Qed.

Lemma ulp1_pos : 0 < ulp1.
Proof. unfold ulp1. apply Z.pow_pos_nonneg; lia. Qed.

(** The largest double below 1 is [1 - 2^-53]. *)
Lemma random_below_one (R : Z) :
  B64.is_random R = true -> 0 <= R <= B64.one - ulp1.
Proof.
  unfold B64.is_random. intros H. apply andb_prop in H as [Hd Hlt].
  apply Z.ltb_lt in Hlt. pose proof Hd as Hd'.
  unfold B64.is_double in Hd'. apply andb_prop in Hd' as [H0 _].
  apply Z.leb_le in H0. split; [exact H0|].
  pose proof ulp1_pos as Hu. rewrite one_ulp1 in *.
  change (2 ^ 53) with 9007199254740992 in *.
  destruct (Z.lt_ge_cases R (2 ^ (52 + 1021))) as [Hlow|Hhigh].
  - rewrite Z.pow_add_r in Hlow by lia. fold ulp1 in Hlow.
    change (2 ^ 52) with 4503599627370496 in *. lia.
  - assert (H1 : 1 <= 1021) by lia.
    destruct (double_grid R 1021 Hd H1 Hhigh) as [k Hk].
    fold ulp1 in Hk. subst R.
    apply Z.mul_lt_mono_pos_r in Hlt; [|exact Hu].
    assert (k <= 9007199254740992 - 1) by lia.
    apply (Z.mul_le_mono_nonneg_r _ _ ulp1) in H; lia.
Qed.

Lemma reqID_bounds (rnd : Z) :
  B64.is_random rnd = true -> 100 <= reqID_of rnd <= 999.
Proof.
  intros Hr. destruct (random_below_one rnd Hr) as [H0 Hmax].
  pose proof ulp1_pos as Hu.
  unfold reqID_of, B64.floor, B64.add, B64.mul_int, B64.of_int.
  set (X := rnd * 900).
  set (P := B64.round X).
  assert (HX0 : 0 <= X) by (unfold X; lia).
  assert (HPd : B64.is_double P = true) by (apply round_is_double, HX0).
  (* the product is a double in [0, 900 - 2^-43] *)
  assert (Hd1 : B64.is_double (900 * B64.one - 2 ^ 10 * ulp1) = true)
    by (vm_compute; reflexivity).
  assert (HP0 : 0 <= P).
  { pose proof (round_nearest X 0 HX0 eq_refl). fold P in H. lia. }
  assert (HP1 : P <= 900 * B64.one - 2 ^ 10 * ulp1).
  { pose proof (round_nearest X _ HX0 Hd1) as Hn. fold P in Hn.
    rewrite one_ulp1 in *. change (2 ^ 53) with 9007199254740992 in *.
    change (2 ^ 10) with 1024 in *.
    destruct (Z.lt_ge_cases P (2 ^ (52 + 1031))) as [Hlow|Hhigh].
    - replace (2 ^ (52 + 1031)) with (4611686018427387904 * ulp1) in Hlow
        by (unfold ulp1; change 4611686018427387904 with (2 ^ 62);
            rewrite <- Z.pow_add_r by lia; reflexivity).
      lia.
    - assert (H1 : 1 <= 1031) by lia.
      destruct (double_grid P 1031 HPd H1 Hhigh) as [k Hk].
      replace (2 ^ 1031) with (1024 * ulp1) in Hk
        by (unfold ulp1; change 1024 with (2 ^ 10);
            rewrite <- Z.pow_add_r by lia; reflexivity).
      unfold X in *.
      destruct (Z.le_gt_cases k (900 * 8796093022208 - 1)) as [Hk1|Hk1].
      + apply (Z.mul_le_mono_nonneg_r _ _ (1024 * ulp1)) in Hk1; lia.
      + assert (Hk2 : 900 * 8796093022208 <= k) by lia.
        apply (Z.mul_le_mono_nonneg_r _ _ (1024 * ulp1)) in Hk2; lia. }
  set (Y := 100 * B64.one + P).
  assert (HY0 : 0 <= Y)
    by (unfold Y; rewrite one_ulp1; change (2 ^ 53) with 9007199254740992; lia).
  assert (Hd2 : B64.is_double (1000 * B64.one - 2 ^ 10 * ulp1) = true)
    by (vm_compute; reflexivity).
  assert (Hd3 : B64.is_double (100 * B64.one) = true) by (vm_compute; reflexivity).
  pose proof (round_nearest Y _ HY0 Hd2) as Hhi.
  pose proof (round_nearest Y _ HY0 Hd3) as Hlo.
  assert (Hone : 0 < B64.one)
    by (rewrite one_ulp1; change (2 ^ 53) with 9007199254740992; lia).
  split.
  - apply Z.div_le_lower_bound; [exact Hone|]. unfold Y in *. lia.
  - assert (B64.round Y / B64.one < 1000); [|lia].
    apply Z.div_lt_upper_bound; [exact Hone|].
    unfold Y in *. rewrite one_ulp1 in *.
    change (2 ^ 53) with 9007199254740992 in *. change (2 ^ 10) with 1024 in *. lia.
Qed.

(** ** sendMention *)

Section SendMentionFacts.

Variable JSON_parse : string -> option json.
Variable JSON_stringify : json -> string.

Lemma report_shape (pre : list effect) (cb : callback) (err : error) :
  (exists es : list effect,
      report pre cb err = Outcome (pre ++ es) Returned
      /\ invoke cb (Some err) None = Some es)
  \/ (report pre cb err = Outcome pre (Threw not_a_function)
      /\ invoke cb (Some err) None = None).
Proof.
  unfold report. destruct (invoke cb (Some err) None) as [es|].
  - left. exists es. split; reflexivity.
  - right. split; reflexivity.
Qed.

Lemma report_callable (pre : list effect) (cb : callback) (err : error) :
  callable cb = true ->
  report pre cb err
  = Outcome (pre ++ [match cb with
                     | DefaultFunction => RejectReturn err
                     | _ => Callback (Some err) None
                     end])
            Returned.
Proof. destruct cb; simpl; intros H; try discriminate; reflexivity. Qed.

Lemma report_quiet (pre : list effect) (cb : callback) (err : error) :
  forallb (fun x => negb (on_transport x)) pre = true ->
  forallb (fun x => negb (on_transport x)) (effects (report pre cb err)) = true
  /\ (forall p : pending, completion_of (report pre cb err) <> ReturnedAck p).
Proof.
  intros Hpre.
  destruct (report_shape pre cb err) as [[es [-> Hes]] | [-> _]]; simpl.
  - split; [|discriminate]. rewrite forallb_app, Hpre. simpl.
    destruct cb; simpl in Hes; try discriminate; injection Hes as <-; reflexivity.
  - split; [exact Hpre | discriminate].
Qed.

Lemma warnings_quiet (ws : list string) :
  forallb (fun x => negb (on_transport x)) (map (LogWarn "sendMention") ws) = true.
Proof. induction ws; simpl; auto. Qed.

(** Before [publishWithAck] is entered nothing touches the transport, and
    it is entered only by a connected call whose message has no attachment
    and has mentions that yield mention data; the envelope then carries the
    identifier drawn for the call. *)
Lemma sendMention_shape (e : env) (msg : msg_arg) (threadID : thread_arg)
      (cb_arg : callback_arg) (reply : option string) :
  forallb (fun x => negb (on_transport x))
          (effects (sendMention JSON_stringify e msg threadID cb_arg reply)) = true
  /\ forall p : pending,
      completion_of (sendMention JSON_stringify e msg threadID cb_arg reply)
      = ReturnedAck p ->
      exists (tid : string) (m : message) (d : mention_data),
        connected e = true
        /\ threadID = ThreadValue tid
        /\ message_of msg = Some m
        /\ m_attachment m = None
        /\ mentions_invalid (m_mentions m) = false
        /\ p = publishWithAck JSON_stringify (others e)
                 (content_of JSON_stringify e tid
                    (match m_body m with Some b => b | None => EmptyString end)
                    d (final_reply cb_arg reply) (reqID_of (random1 e)))
                 (match m_body m with Some b => b | None => EmptyString end)
                 (reqID_of (random1 e)) (final_callback cb_arg reply).
Proof.
  unfold sendMention. destruct (connected e) eqn:Hc; simpl.
  2:{ destruct cb_arg as [|s|]; [| destruct (String.eqb s EmptyString) |];
        (split; [reflexivity | intros p H; discriminate H]). }
  destruct threadID as [|tid]; [split; [reflexivity | intros p H; discriminate H]|].
  destruct (message_of msg) as [m|] eqn:Hm.
  2:{ destruct (report_quiet [] (final_callback cb_arg reply) (bad_type (getType msg)) eq_refl)
        as [Hq Hna].
      split; [exact Hq | intros p H; elim (Hna p H)]. }
  unfold send_object. destruct (m_attachment m) as [a|] eqn:Ha.
  { destruct (sendMessage_available e).
    - split; [reflexivity | intros p H; discriminate H].
    - match goal with
      | |- context [report ?pre ?cb ?err] =>
          destruct (report_quiet pre cb err eq_refl) as [Hq Hna]
      end.
      split; [exact Hq | intros p H; elim (Hna p H)]. }
  destruct (mentions_invalid (m_mentions m)) eqn:Hv.
  { destruct (report_quiet [] (final_callback cb_arg reply) mentions_required eq_refl)
      as [Hq Hna].
    split; [exact Hq | intros p H; elim (Hna p H)]. }
  destruct (buildMentionData (m_mentions m) _) as [d|] eqn:Hd.
  - simpl. split; [apply warnings_quiet|].
    intros p H. injection H as <-.
    exists tid, m, d. repeat split; auto.
  - match goal with
    | |- context [report ?pre ?cb ?err] =>
        destruct (report_quiet pre cb err (warnings_quiet _)) as [Hq Hna]
    end.
    split; [exact Hq | intros p H; elim (Hna p H)].
Qed.



(** C9. Every envelope that a call of sendMention publishes, at any time,
    is the serialized content of the call, whose request_id is an integer
    between 100 and 999; the random number is any double in [0, 1). *)
Theorem request_id_in_range (e : env) (msg : msg_arg) (threadID : thread_arg)
        (cb_arg : callback_arg) (reply : option string) (evs : list event)
        (topic payload : string) (qos : Z) (retain : bool) :
  B64.is_random (random1 e) = true ->
  In (Publish topic payload qos retain)
     (all_effects JSON_parse (sendMention JSON_stringify e msg threadID cb_arg reply) evs) ->
  exists (content : json) (id : Z),
    payload = JSON_stringify content
    /\ Json.prop content "request_id" = Some (JInt id)
    /\ 100 <= id <= 999.
Proof.
  intros Hrnd Hin.
  destruct (sendMention_shape e msg threadID cb_arg reply) as [Hq Hack].
  unfold all_effects in Hin. apply in_app_or in Hin as [Hin|Hin].
  - rewrite forallb_forall in Hq. specialize (Hq _ Hin). discriminate Hq.
  - destruct (completion_of _) as [err| |p]; try contradiction.
    destruct (Hack p eq_refl) as (tid & m & d & _ & _ & _ & _ & _ & ->).
    match type of Hin with
    | In _ (trace (run _ (publishWithAck _ ?o ?c ?t ?r ?k) _)) =>
        destruct (reached_consistent JSON_parse JSON_stringify o c t r k evs)
          as [_ [rest [Ht [Hlate _]]]];
        exists c, r
    end.
    rewrite Ht in Hin. apply in_app_or in Hin as [Hin|Hin].
    + simpl in Hin. destruct Hin as [H|[H|[H|[]]]]; try discriminate H.
      injection H as _ <- _ _. split; [reflexivity|]. split; [reflexivity|].
      apply reqID_bounds, Hrnd.
    + rewrite forallb_forall in Hlate. specialize (Hlate _ Hin). discriminate Hlate.
Qed.



End SendMentionFacts.

(** ** Worked instances *)

Lemma unmatched_frame_is_skipped_witness :
  skipped demo_parse (p_reqID demo_call) "ACK 456"
  /\ step demo_parse demo_call (Message "/ls_resp" "ACK 456") = demo_call.
Proof.
  assert (H : skipped demo_parse (p_reqID demo_call) "ACK 456").
  { apply request_id_differs with (jsonMsg := demo_frame 456); reflexivity. }
  split; [exact H|].
  apply (unmatched_frame_is_skipped demo_parse demo_call "ACK 456" H).
Defined.

Lemma promise_settles_at_most_once_witness :
  promise (run demo_parse demo_call [Timeout]) = Some (Rejected timeout_error)
  /\ promise (run demo_parse demo_call ([Timeout] ++ [Message "/ls_resp" "ACK 550"]))
     = Some (Rejected timeout_error)
  /\ In Timeout [Timeout]
  /\ step demo_parse (run demo_parse demo_call [Timeout]) (Message "/ls_resp" "ACK 550")
     = run demo_parse demo_call [Timeout]
  /\ existsb is_publish_error [Message "/ls_resp" "ACK 550"; Timeout] = false
  /\ (count is_settle
             (trace (run demo_parse demo_call [Message "/ls_resp" "ACK 550"; Timeout]))
       <= 1)%nat.
Proof.
  destruct (promise_settles_at_most_once demo_parse demo_stringify
              [7%nat] JNull "hello" 550 UserFunction) as [Hkeep [Hlate Hcalls]].
  split; [reflexivity|]. split; [apply Hkeep; reflexivity|].
  split; [left; reflexivity|]. split; [apply Hlate; left; reflexivity|].
  split; [reflexivity|]. apply Hcalls. reflexivity.
Defined.


Lemma request_id_in_range_witness :
  B64.is_random (random1 demo_env) = true
  /\ exists (content : json) (id : Z),
      demo_stringify (content_of demo_stringify demo_env "99" "hello @Alice bye"
                                 (MentionData "1" "7" "5" "p") None 550)
      = demo_stringify content
      /\ Json.prop content "request_id" = Some (JInt id)
      /\ 100 <= id <= 999.
Proof.
  assert (H : B64.is_random (random1 demo_env) = true) by (vm_compute; reflexivity).
  split; [exact H|].
  apply (request_id_in_range demo_parse demo_stringify demo_env (MsgObject demo_alice)
           (ThreadValue "99") ArgFunction None [] "/ls_req" _ 1 false H).
  vm_compute. right. left. reflexivity.
Defined.




(** Without a callback the validation error reaches no function of the
    caller: the call only rejects returnPromise and returns. The same holds
    for a string that is taken as replyToMessage. *)
Example invalid_mentions_without_callback :
  sendMention demo_stringify demo_env (MsgObject demo_no_mentions)
              (ThreadValue "99") ArgAbsent None
  = Outcome [RejectReturn mentions_required] Returned
  /\ sendMention demo_stringify demo_env (MsgObject demo_no_mentions)
                 (ThreadValue "99") (ArgString "mid.1") None
     = Outcome [RejectReturn mentions_required] Returned.
Proof. split; reflexivity. Qed.


(** ** Agreement with the Standard Library's binary64 *)

(** On the samples, [B64.round] is the rounding of [SpecFloat]. *)
Example round_agrees_on_samples :
  forallb (fun X => match of_spec_float (to_spec_float X) with
                    | Some Y => Y =? B64.round X
                    | None => false
                    end) sample_exacts = true.
Proof. vm_compute. reflexivity. Qed.

(** On the samples, the identifier is the one computed with the
    multiplication and the addition of [SpecFloat]. *)
Example reqID_agrees_on_samples :
  forallb (fun R => B64.is_random R
                    && match reqID_spec_float R with
                       | Some id => id =? reqID_of R
                       | None => false
                       end) sample_randoms = true.
Proof. vm_compute. reflexivity. Qed.

(** * Further properties *)

(** ** The uptime pinger *)

Lemma append_nonempty_l (a b : string) : a <> EmptyString -> String.append a b <> EmptyString.
Proof. destruct a; simpl; [congruence | discriminate]. Qed.

Lemma is_set_shown (v : option string) :
  Uptime.is_set v = true -> Uptime.shown v <> EmptyString.
Proof.
  destruct v as [s|]; simpl; [|discriminate].
  destruct (String.eqb_spec s EmptyString); [discriminate | auto].
Qed.

Lemma or_else_set (a b : option string) :
  Uptime.is_set a || Uptime.is_set b = true -> Uptime.is_set (Uptime.or_else a b) = true.
Proof.
  unfold Uptime.or_else. destruct (Uptime.is_set a) eqn:E; simpl; auto.
Qed.

(** X1. Every URL that detectPlatformAndURL returns is a non-empty string;
    unless it is the configured custom URL it starts with "http"; and the
    only platform reported without a URL is GitHub Actions. *)
Theorem detected_url_shape (env : Uptime.process_env) (custom : option string)
        (info : Uptime.platform_info) :
  Uptime.detectPlatformAndURL env custom = Some info ->
  match Uptime.url info with
  | Some u =>
      u <> EmptyString
      /\ (Uptime.platform info <> "Custom URL" -> Js.startsWith u "http" = true)
  | None => Uptime.platform info = "GitHub Actions"
  end.
Proof.
  unfold Uptime.detectPlatformAndURL. intros H.
  repeat match type of H with
         | context [if ?c then _ else _] => destruct c eqn:?
         end;
    try discriminate H; injection H as <-; simpl;
    try (split; [discriminate | reflexivity]); try reflexivity.
  all: try (split; [apply is_set_shown, or_else_set; assumption | intros _; assumption]).
  all: destruct custom as [u|]; [|simpl in *; discriminate].
  all: split; [apply (is_set_shown (Some u)); assumption | intros Hp; now elim Hp].
Qed.

(** X2. The exported function arms its two timers, one of 5000 ms and one of
    300000 ms, exactly when it returns the interval of a URL, which then is
    a non-empty string and monitoring is enabled; otherwise it arms nothing. *)
Theorem timers_only_for_a_url (os : string) (cfg : Uptime.config)
        (env : Uptime.process_env) :
  match Uptime.monitored (Uptime.module_exports os cfg env) with
  | Some u =>
      u <> EmptyString
      /\ Uptime.Uptime cfg = true
      /\ filter Uptime.is_timer (Uptime.effects (Uptime.module_exports os cfg env))
         = [Uptime.SetTimeout 5000; Uptime.SetInterval 300000]
  | None =>
      filter Uptime.is_timer (Uptime.effects (Uptime.module_exports os cfg env)) = []
  end.
Proof.
  unfold Uptime.module_exports.
  destruct (Uptime.Uptime cfg); simpl; [|reflexivity].
  assert (Hc : forall label : string,
             match Uptime.monitored (Uptime.custom_only label cfg) with
             | Some u =>
                 u <> EmptyString /\ true = true
                 /\ filter Uptime.is_timer (Uptime.effects (Uptime.custom_only label cfg))
                    = [Uptime.SetTimeout 5000; Uptime.SetInterval 300000]
             | None =>
                 filter Uptime.is_timer (Uptime.effects (Uptime.custom_only label cfg)) = []
             end).
  { intros label. unfold Uptime.custom_only.
    destruct (Uptime.is_set (Uptime.UptimeURL cfg)) eqn:E; simpl; [|reflexivity].
    split; [exact (is_set_shown _ E) | split; reflexivity]. }
  destruct (String.eqb os "win32"); [apply Hc|].
  destruct (String.eqb os "darwin"); [apply Hc|].
  destruct (String.eqb os "linux"); [|reflexivity].
  destruct (Uptime.detectPlatformAndURL env (Uptime.UptimeURL cfg)) as [[p [u|]]|];
    try reflexivity.
  destruct (String.eqb_spec u EmptyString); simpl; [reflexivity|].
  split; [assumption | split; reflexivity].
Qed.

(** X3. On linux a detected hosting platform comes before the configured
    URL: when the environment alone identifies a platform (GitHub Actions
    included, which has no URL), the value of UptimeURL changes neither the
    detection nor what the exported function does. *)
Theorem detection_before_custom_url (env : Uptime.process_env)
        (info : Uptime.platform_info) (u1 u2 : option string) :
  Uptime.detectPlatformAndURL env None = Some info ->
  Uptime.detectPlatformAndURL env u1 = Some info
  /\ Uptime.module_exports "linux" (Uptime.Config true u1) env
     = Uptime.module_exports "linux" (Uptime.Config true u2) env.
Proof.
  intros H.
  assert (Hd : forall u : option string, Uptime.detectPlatformAndURL env u = Some info).
  { intros u. revert H. unfold Uptime.detectPlatformAndURL.
    change (Uptime.is_set None) with false.
    repeat match goal with
           | |- context [if ?c then _ else _] => destruct c eqn:?
           end; simpl; intros H; try exact H; discriminate H. }
  split; [apply Hd|].
  unfold Uptime.module_exports. simpl. rewrite !Hd. reflexivity.
Qed.

Lemma detection_before_custom_url_witness :
  Uptime.detectPlatformAndURL
    (Uptime.ProcessEnv None None None None None None None (Some "true") None None None)
    None
  = Some (Uptime.PlatformInfo "GitHub Actions" None)
  /\ Uptime.monitored
       (Uptime.module_exports "linux" (Uptime.Config true (Some "https://bot.example"))
          (Uptime.ProcessEnv None None None None None None None (Some "true")
                             None None None))
     = None.
Proof.
  split; [reflexivity|].
  destruct (detection_before_custom_url
              (Uptime.ProcessEnv None None None None None None None (Some "true")
                                 None None None)
              (Uptime.PlatformInfo "GitHub Actions" None)
              (Some "https://bot.example") None eq_refl) as [_ ->].
  reflexivity.
Defined.

(** ** hasLinks *)

(** The characters of the alternatives are matched by themselves and, the
    letters, by their capitals, and by no other code unit. *)
Lemma link_char_fold (a c : ascii) :
  In a (list_ascii_of_string "htp:/sw.mefbyouack") ->
  Js.ci_eq a c = Ascii.eqb a (fold_ascii c).
Proof.
  intros Ha. simpl in Ha.
  repeat (destruct Ha as [<-|Ha];
          [destruct c as [[] [] [] [] [] [] [] []]; vm_compute; reflexivity|]).
  contradiction.
Qed.

Lemma link_patterns_chars (lit : string) (a : ascii) :
  In lit link_patterns ->
  In a (list_ascii_of_string lit) ->
  In a (list_ascii_of_string "htp:/sw.mefbyouack").
Proof.
  intros Hl Ha. simpl in Hl.
  repeat (destruct Hl as [<-|Hl];
          [simpl in Ha; repeat (destruct Ha as [<-|Ha]; [simpl; tauto|]); contradiction|]).
  contradiction.
Qed.

Lemma ci_prefix_spells (lit : string) :
  (forall a : ascii,
      In a (list_ascii_of_string lit) ->
      forall c : ascii, Js.ci_eq a c = Ascii.eqb a (fold_ascii c)) ->
  forall s : string,
    ci_prefix lit s = true
    <-> exists mid q : string, s = String.append mid q /\ spells lit mid = true.
Proof.
  induction lit as [|a lit IH]; intros Hplain s.
  - simpl. split.
    + intros _. exists EmptyString, s. split; reflexivity.
    + reflexivity.
  - assert (Ha : forall c : ascii, Js.ci_eq a c = Ascii.eqb a (fold_ascii c))
      by (apply Hplain; left; reflexivity).
    assert (Hrest : forall a0 : ascii,
               In a0 (list_ascii_of_string lit) ->
               forall c : ascii, Js.ci_eq a0 c = Ascii.eqb a0 (fold_ascii c))
      by (intros a0 H0; apply Hplain; right; exact H0).
    specialize (IH Hrest).
    destruct s as [|c s].
    + simpl. split; [discriminate|].
      intros [mid [q [H Hs]]]. destruct mid; [discriminate Hs | discriminate H].
    + cbn [ci_prefix]. rewrite Ha. split.
      * intros H. apply andb_prop in H as [Hc Hs].
        apply IH in Hs as [mid [q [-> Hs]]].
        exists (String c mid), q. split; [reflexivity|].
        cbn [spells]. rewrite Hc, Hs. reflexivity.
      * intros [mid [q [H Hs]]]. destruct mid as [|c' mid]; [discriminate Hs|].
        simpl in H. injection H as <- ->.
        cbn [spells] in Hs. apply andb_prop in Hs as [Hc Hs].
        rewrite Hc. apply IH. exists mid, q. split; [reflexivity | exact Hs].
Qed.

Lemma ci_contains_spells (lit : string) :
  (forall a : ascii,
      In a (list_ascii_of_string lit) ->
      forall c : ascii, Js.ci_eq a c = Ascii.eqb a (fold_ascii c)) ->
  forall s : string,
    ci_contains lit s = true
    <-> exists p mid q : string,
        s = String.append p (String.append mid q) /\ spells lit mid = true.
Proof.
  intros Hplain. induction s as [|c s IH].
  - cbn [ci_contains]. rewrite orb_false_r, (ci_prefix_spells lit Hplain). split.
    + intros [mid [q [H Hs]]]. exists EmptyString, mid, q. split; assumption.
    + intros [p [mid [q [H Hs]]]]. destruct p; [|discriminate H].
      exists mid, q. split; assumption.
  - change (ci_contains lit (String c s))
      with (ci_prefix lit (String c s) || ci_contains lit s).
    rewrite orb_true_iff, IH, (ci_prefix_spells lit Hplain). split.
    + intros [[mid [q [H Hs]]] | [p [mid [q [H Hs]]]]].
      * exists EmptyString, mid, q. split; assumption.
      * exists (String c p), mid, q. split; [simpl; rewrite H; reflexivity | exact Hs].
    + intros [p [mid [q [H Hs]]]]. destruct p as [|x p].
      * left. exists mid, q. split; assumption.
      * right. simpl in H. injection H as _ H. exists p, mid, q. split; assumption.
Qed.

(** X4. hasLinks answers true exactly when the text contains one of
    "http://", "https://", "www.", "t.me/", "fb.me/", "youtu.be/",
    "facebook.com/" and "youtube.com/" with each letter in either case: a
    stretch of the text itself, not of its lower-case copy, that is the
    literal once A-Z are read as a-z and every other code unit is left as
    it is. *)
Theorem hasLinks_spec (s : string) :
  hasLinks s = true
  <-> exists lit p mid q : string,
      In lit link_patterns
      /\ s = String.append p (String.append mid q)
      /\ spells lit mid = true.
Proof.
  assert (Hplain : forall lit : string,
             In lit link_patterns ->
             forall a : ascii,
               In a (list_ascii_of_string lit) ->
               forall c : ascii, Js.ci_eq a c = Ascii.eqb a (fold_ascii c)).
  { intros lit Hin a Ha c. apply link_char_fold, (link_patterns_chars lit a Hin Ha). }
  unfold hasLinks. rewrite existsb_exists. split.
  - intros [lit [Hin H]].
    apply (ci_contains_spells lit (Hplain lit Hin)) in H as [p [mid [q [H Hs]]]].
    exists lit, p, mid, q. repeat split; assumption.
  - intros [lit [p [mid [q [Hin [H Hs]]]]]]. exists lit. split; [exact Hin|].
    apply (ci_contains_spells lit (Hplain lit Hin)). exists p, mid, q. split; assumption.
Qed.

(** Capital letters in a link, and a text without any of the literals. *)
Example hasLinks_capitals :
  hasLinks "see WWW.example.org" = true
  /\ hasLinks "see YouTu.Be/abc" = true
  /\ hasLinks "see www example org" = false.
Proof. repeat split; reflexivity. Qed.

(** ** extractIdsFromPayload *)








(** What sits inside an object is not searched. *)
Example extractIdsFromPayload_skips_objects :
  extractIdsFromPayload
    (JObj [("step",
            JArr [JObj [("x", JArr [JInt 5; JStr "replaceOptimisticMessage";
                                    JNull; JStr "mid.1"])]])])
  = Extracted None None.
Proof. reflexivity. Qed.

(** ** The fate of a call of publishWithAck *)

Section CallFate.

Variable JSON_parse : string -> option json.
Variable JSON_stringify : json -> string.

(** An event that is no exit changes nothing, in any state. *)
Lemma step_no_exit (st : pending) (ev : event) :
  is_exit JSON_parse (p_reqID st) ev = false ->
  step JSON_parse st ev = st.
Proof.
  destruct ev as [topic message | [e|] | ]; simpl; try discriminate; [|reflexivity].
  intros H. unfold deliver. apply fold_left_fixed. intros [|n]; [|reflexivity].
  unfold handleRes, matches in *.
  destruct (String.eqb topic "/ls_resp"); simpl in *; [|reflexivity].
  destruct (decode JSON_parse message) as [[jsonMsg payload]|]; [|reflexivity].
  rewrite H. reflexivity.
Qed.



Section OneCallFate.

Variable others : list nat.
Variable content : json.
Variable text : string.
Variable reqID : Z.
Variable cb : callback.

Local Notation "'p0'" := (publishWithAck JSON_stringify others content text reqID cb).



End OneCallFate.

End CallFate.


(** ** How often the callback and the promise are reached *)

Section CallCounts.

Variable JSON_parse : string -> option json.
Variable JSON_stringify : json -> string.

Lemma exit_tail_trace_eq (err : option error) (data : option bodies) (s : settlement)
      (st : pending) :
  trace (notify_then err data (settle s) (cleanup st))
  = trace st
      ++ (if done st then [] else [RemoveListener "message" HandleRes])
      ++ tail_effects (p_callback st) err data s.
Proof.
  unfold notify_then, tail_effects.
  assert (Hc : p_callback (cleanup st) = p_callback st)
    by apply (e_callback _ _ (cleanup_extends st)).
  assert (Ht : trace (cleanup st)
               = trace st ++ (if done st then [] else [RemoveListener "message" HandleRes])).
  { unfold cleanup. destruct (done st); simpl; [rewrite app_nil_r|]; reflexivity. }
  rewrite Hc. destruct (truthy (p_callback st)).
  - destruct (invoke (p_callback st) err data) as [es|]; simpl; rewrite Ht;
      rewrite <- ?app_assoc; reflexivity.
  - simpl. rewrite Ht, <- app_assoc. reflexivity.
Qed.

Section Counting.

Variable others : list nat.
Variable start : list effect.
Variable cb : callback.

(** A kind of effect that every pass through the tail produces [k] times
    and that [removeListener] is not. *)
Variable f : effect -> bool.
Variable k : nat.
Hypothesis tail_count :
  forall (err : option error) (data : option bodies) (s : settlement),
    count f (tail_effects cb err data s) = k.
Hypothesis not_remove : f (RemoveListener "message" HandleRes) = false.

Lemma step_done_count (st : pending) (ev : event) :
  consistent others start st ->
  done st = true ->
  p_callback st = cb ->
  count f (trace (step JSON_parse st ev))
  = (count f (trace st) + (if is_publish_error ev then k else 0))%nat.
Proof.
  intros Hc Hd Hcb. destruct ev as [topic message | [e|] | ]; simpl.
  - rewrite (deliver_consistent_eq _ _ _ _ _ _ Hc), Hd. lia.
  - rewrite exit_tail_trace_eq, Hd, Hcb. simpl. rewrite count_app, tail_count. reflexivity.
  - lia.
  - unfold on_timeout. rewrite Hd. lia.
Qed.

Lemma run_done_count (evs : list event) :
  forall st : pending,
    consistent others start st ->
    done st = true ->
    p_callback st = cb ->
    count f (trace (run JSON_parse st evs))
    = (count f (trace st) + k * List.length (filter is_publish_error evs))%nat.
Proof.
  induction evs as [|ev evs IH]; intros st Hc Hd Hcb; [simpl; lia|].
  change (run JSON_parse st (ev :: evs))
    with (run JSON_parse (step JSON_parse st ev) evs).
  rewrite IH.
  - rewrite (step_done_count st ev Hc Hd Hcb). simpl.
    destruct (is_publish_error ev); simpl; lia.
  - apply step_consistent, Hc.
  - apply (e_done _ _ (step_extends JSON_parse st ev)), Hd.
  - rewrite (e_callback _ _ (step_extends JSON_parse st ev)). exact Hcb.
Qed.

Lemma step_exit_count (st : pending) (ev : event) :
  consistent others start st ->
  done st = false ->
  p_callback st = cb ->
  is_exit JSON_parse (p_reqID st) ev = true ->
  count f (trace (step JSON_parse st ev)) = (count f (trace st) + k)%nat.
Proof.
  intros Hc Hd Hcb Hex.
  assert (Htail : forall (err : option error) (data : option bodies) (s : settlement),
             count f (trace (notify_then err data (settle s) (cleanup st)))
             = (count f (trace st) + k)%nat).
  { intros err data s. rewrite exit_tail_trace_eq, Hd, Hcb, !count_app, tail_count.
    unfold count at 2. simpl. rewrite not_remove. simpl. lia. }
  destruct ev as [topic message | [e|] | ]; simpl in *.
  - apply andb_prop in Hex as [Ht Hm]. apply String.eqb_eq in Ht. subst topic.
    rewrite (deliver_consistent_eq _ _ _ _ _ _ Hc), Hd.
    unfold handleRes, matches in *. simpl.
    destruct (decode JSON_parse message) as [[jsonMsg payload]|]; [|discriminate].
    rewrite Hm. simpl. apply Htail.
  - apply Htail.
  - discriminate.
  - unfold on_timeout. rewrite Hd. apply Htail.
Qed.

Lemma run_count (evs : list event) :
  forall st : pending,
    consistent others start st ->
    done st = false ->
    p_callback st = cb ->
    count f (trace (run JSON_parse st evs))
    = (count f (trace st) + k * handler_calls JSON_parse (p_reqID st) evs)%nat.
Proof.
  induction evs as [|ev evs IH]; intros st Hc Hd Hcb; [simpl; lia|].
  change (run JSON_parse st (ev :: evs))
    with (run JSON_parse (step JSON_parse st ev) evs).
  simpl handler_calls. destruct (is_exit JSON_parse (p_reqID st) ev) eqn:Hex.
  - rewrite run_done_count.
    + rewrite (step_exit_count st ev Hc Hd Hcb Hex). lia.
    + apply step_consistent, Hc.
    + apply (step_exit_done JSON_parse others start); assumption.
    + rewrite (e_callback _ _ (step_extends JSON_parse st ev)). exact Hcb.
  - rewrite (step_no_exit JSON_parse st ev Hex). apply IH; assumption.
Qed.

End Counting.



Lemma tail_throws (cb : callback) (err : option error) (data : option bodies)
      (s : settlement) :
  throws_on_call cb = true -> count is_settle (tail_effects cb err data s) = 0%nat.
Proof.
  unfold throws_on_call, tail_effects.
  destruct cb as [| |str|]; simpl; intros H; try discriminate.
  destruct (String.eqb str EmptyString); simpl in *; [discriminate | reflexivity].
Qed.

(** A callback whose call throws keeps a pending promise pending. *)
Lemma tail_throwing_pending (err : option error) (data : option bodies)
      (s : settlement) (st : pending) :
  throws_on_call (p_callback st) = true ->
  promise st = None ->
  promise (notify_then err data (settle s) (cleanup st)) = None.
Proof.
  intros Hcb Hp. unfold notify_then.
  assert (Hc : p_callback (cleanup st) = p_callback st)
    by apply (e_callback _ _ (cleanup_extends st)).
  assert (Hpc : promise (cleanup st) = None).
  { unfold cleanup. destruct (done st); simpl; exact Hp. }
  rewrite Hc. unfold throws_on_call in Hcb.
  destruct (truthy (p_callback st)); [|discriminate].
  destruct (p_callback st); simpl in *; try discriminate; exact Hpc.
Qed.

Lemma step_throwing_pending (st : pending) (ev : event) :
  throws_on_call (p_callback st) = true ->
  promise st = None ->
  promise (step JSON_parse st ev) = None.
Proof.
  intros Hcb Hp. destruct ev as [topic message | [e|] | ]; simpl.
  - unfold deliver.
    assert (H : forall (ls : list listener) (st0 : pending),
               throws_on_call (p_callback st0) = true -> promise st0 = None ->
               promise (fold_left (fun st1 l =>
                                     match l with
                                     | HandleRes => handleRes JSON_parse topic message st1
                                     | Other _ => st1
                                     end) ls st0) = None).
    { induction ls as [|l ls IH]; intros st0 Hcb0 Hp0; [exact Hp0|].
      simpl. destruct l as [|n]; [|apply IH; assumption].
      apply IH.
      - rewrite (e_callback _ _ (handleRes_extends JSON_parse topic message st0)).
        exact Hcb0.
      - unfold handleRes. destruct (negb _); [exact Hp0|].
        destruct (decode JSON_parse message) as [[j p]|]; [|exact Hp0].
        destruct (negb _); [exact Hp0|].
        apply tail_throwing_pending; assumption. }
    apply H; assumption.
  - apply tail_throwing_pending; assumption.
  - exact Hp.
  - unfold on_timeout. destruct (done st); [exact Hp|].
    apply tail_throwing_pending; assumption.
Qed.

Lemma run_throwing_pending (evs : list event) :
  forall st : pending,
    throws_on_call (p_callback st) = true ->
    promise st = None ->
    promise (run JSON_parse st evs) = None.
Proof.
  induction evs as [|ev evs IH]; intros st Hcb Hp; [exact Hp|].
  change (run JSON_parse st (ev :: evs))
    with (run JSON_parse (step JSON_parse st ev) evs).
  apply IH.
  - rewrite (e_callback _ _ (step_extends JSON_parse st ev)). exact Hcb.
  - apply step_throwing_pending; assumption.
Qed.


(** X8. With a non-empty string left in the callback (a third and a
    fourth argument that are both strings), every exit stops at the call of
    the callback: neither resolve nor reject is ever called and the promise
    stays pending, whatever events arrive. *)
Theorem string_callback_never_settles (others : list nat) (content : json)
        (text : string) (reqID : Z) (cb : callback) (evs : list event) :
  throws_on_call cb = true ->
  count is_settle
        (trace (run JSON_parse (publishWithAck JSON_stringify others content text reqID cb)
                    evs))
  = 0%nat
  /\ promise (run JSON_parse (publishWithAck JSON_stringify others content text reqID cb)
                  evs)
     = None.
Proof.
  intros Hcb.
  pose proof (start_consistent JSON_stringify others content text reqID cb) as H0.
  split.
  - rewrite (run_count others _ cb is_settle 0
               (fun err data s => tail_throws cb err data s Hcb) eq_refl
               evs _ H0 eq_refl eq_refl).
    reflexivity.
  - apply run_throwing_pending; [exact Hcb | reflexivity].
Qed.

End CallCounts.

(** ** What buildMentionData returns *)

Lemma names_of_cons (m : mention) (ms : list mention) :
  names_of (m :: ms)
  = if String.eqb (name_of m) EmptyString then names_of ms else name_of m :: names_of ms.
Proof.
  unfold names_of. simpl. destruct (String.eqb (name_of m) EmptyString); reflexivity.
Qed.

Lemma len_positive (s : string) : s <> EmptyString -> 1 <= Js.len s.
Proof. destruct s; [congruence|]. unfold Js.len. simpl. lia. Qed.

Lemma build_fold_entries (base : string) (ms : list mention) :
  forall st : build_state,
    lengths (fold_left (build_step base) ms st) = lengths st ++ map Js.len (names_of ms)
    /\ types (fold_left (build_step base) ms st)
       = types st ++ repeat "p" (List.length (names_of ms))
    /\ List.length (ids (fold_left (build_step base) ms st))
       = (List.length (ids st) + List.length (names_of ms))%nat
    /\ List.length (offsets (fold_left (build_step base) ms st))
       = (List.length (offsets st) + List.length (names_of ms))%nat
    /\ (Forall (fun o => 0 <= o) (offsets st) ->
        Forall (fun o => 0 <= o) (offsets (fold_left (build_step base) ms st))).
Proof.
  induction ms as [|m ms IH]; intros st.
  - simpl. rewrite !app_nil_r. repeat split; auto.
  - simpl fold_left. rewrite names_of_cons.
    destruct (IH (build_step base st m)) as (Hl & Ht & Hi & Ho & Hp).
    rewrite Hl, Ht, Hi, Ho. unfold build_step in *.
    destruct (String.eqb (name_of m) EmptyString); [repeat split; auto|].
    destruct (locate base (raw_of m) (name_of m) (start_of m (cursor st)) (cursor st))
      as [idx adj].
    simpl in *. rewrite <- !app_assoc, !length_app. simpl.
    repeat split; try lia.
    intros H0. apply Hp. apply Forall_app. split; [exact H0|].
    constructor; [lia | constructor].
Qed.

Lemma build_loop_entries (base : string) (ms : list mention) :
  lengths (build_loop base ms) = map Js.len (names_of ms)
  /\ Forall (fun l => 1 <= l) (lengths (build_loop base ms))
  /\ types (build_loop base ms) = repeat "p" (List.length (names_of ms))
  /\ List.length (ids (build_loop base ms)) = List.length (names_of ms)
  /\ List.length (offsets (build_loop base ms)) = List.length (names_of ms)
  /\ Forall (fun o => 0 <= o) (offsets (build_loop base ms))
  /\ (buildMentionData (MentionsArray ms) base = None <-> names_of ms = []).
Proof.
  destruct (build_fold_entries base ms build_init) as (Hl & Ht & Hi & Ho & Hp).
  fold (build_loop base ms) in Hl, Ht, Hi, Ho, Hp.
  change (ids build_init) with (@nil string) in Hi.
  change (offsets build_init) with (@nil Z) in Ho, Hp.
  simpl in Hl, Ht, Hi, Ho.
  assert (Hnull : buildMentionData (MentionsArray ms) base = None <-> names_of ms = []).
  { unfold buildMentionData. destruct ms as [|m ms]; [split; reflexivity|].
    destruct (ids (build_loop base (m :: ms))) as [|i l]; simpl in Hi.
    - split; [intros _|reflexivity].
      destruct (names_of (m :: ms)); [reflexivity | discriminate].
    - split; [discriminate|]. intros Hn. rewrite Hn in Hi. discriminate. }
  repeat split; try assumption; try apply Hnull.
  - rewrite Hl. apply Forall_forall. intros l Hin. apply in_map_iff in Hin as [n [<- Hn]].
    apply len_positive. unfold names_of in Hn. apply filter_In in Hn as [_ Hn].
    destruct (String.eqb_spec n EmptyString); [discriminate | assumption].
  - apply Hp. constructor.
Qed.

(** X9. The loop makes one entry for each mention whose name, after
    trimming and removing at-signs, is not empty, and skips the others: the
    lengths are the lengths of those names, each at least 1, every type is
    "p", there are as many ids and offsets, and no offset is negative.
    buildMentionData returns null exactly for an empty array or one without
    such a mention. *)
Theorem one_entry_per_name (base : string) (ms : list mention) :
  lengths (build_loop base ms) = map Js.len (names_of ms)
  /\ Forall (fun l => 1 <= l) (lengths (build_loop base ms))
  /\ types (build_loop base ms) = repeat "p" (List.length (names_of ms))
  /\ List.length (ids (build_loop base ms)) = List.length (names_of ms)
  /\ List.length (offsets (build_loop base ms)) = List.length (names_of ms)
  /\ Forall (fun o => 0 <= o) (offsets (build_loop base ms))
  /\ (buildMentionData (MentionsArray ms) base = None <-> names_of ms = []).
Proof. exact (build_loop_entries base ms). Qed.

Lemma ranges_in_order_snoc (offs lens : list Z) (off len : Z) :
  ranges_in_order offs lens = true ->
  Forall2 (fun o l => o + l <= off) offs lens ->
  ranges_in_order (offs ++ [off]) (lens ++ [len]) = true.
Proof.
  intros Hr Hall. induction Hall as [|o l offs lens Hol Hall IH]; [reflexivity|].
  destruct offs as [|o' offs].
  - inversion Hall; subst. simpl. rewrite (proj2 (Z.leb_le _ _) Hol). reflexivity.
  - inversion Hall as [|? l' ? lens' ? ?]; subst.
    simpl in Hr. apply andb_prop in Hr as [Hoo Hr].
    change (ranges_in_order ((o :: o' :: offs) ++ [off]) ((l :: l' :: lens') ++ [len]))
      with ((o + l <=? o') && ranges_in_order ((o' :: offs) ++ [off]) ((l' :: lens') ++ [len])).
    rewrite Hoo. apply IH. exact Hr.
Qed.

Lemma build_step_ranges (base : string) (st : build_state) (m : mention) :
  ranges_behind_cursor st ->
  String.eqb (name_of m) EmptyString
  || ((cursor st <=? start_of m (cursor st))
      && (0 <=? fst (forward_search base (raw_of m) (name_of m)
                                    (start_of m (cursor st))))) = true ->
  ranges_behind_cursor (build_step base st m).
Proof.
  intros [Hr Hall] H. unfold build_step.
  destruct (String.eqb_spec (name_of m) EmptyString) as [E|E].
  - split; assumption.
  - simpl in H. apply andb_prop in H as [Hstart Hidx].
    apply Z.leb_le in Hstart, Hidx.
    pose proof (forward_search_hit base m (start_of m (cursor st)) E Hidx) as [Hge Hadj].
    unfold locate.
    destruct (forward_search base (raw_of m) (name_of m) (start_of m (cursor st)))
      as [idx adj].
    simpl in Hidx, Hge, Hadj.
    rewrite (proj2 (Z.ltb_ge _ _) Hidx).
    pose proof (len_positive _ E) as Hlen.
    split; simpl.
    + apply ranges_in_order_snoc; [assumption|].
      eapply Forall2_impl; [|exact Hall]. simpl. intros; lia.
    + apply Forall2_app.
      * eapply Forall2_impl; [|exact Hall]. simpl. intros; lia.
      * constructor; [lia | constructor].
Qed.

(** X10. When every mention is found by a forward strategy from a start
    at or after the cursor, the ranges do not overlap: each offset is at
    least the previous offset plus the previous length. *)
Theorem ranges_do_not_overlap (base : string) (ms : list mention) :
  found_in_order base build_init ms = true ->
  ranges_in_order (offsets (build_loop base ms)) (lengths (build_loop base ms)) = true.
Proof.
  unfold build_loop.
  assert (H : forall st : build_state,
             ranges_behind_cursor st ->
             found_in_order base st ms = true ->
             ranges_behind_cursor (fold_left (build_step base) ms st)).
  { induction ms as [|m ms IH]; intros st Hst Hf; [exact Hst|].
    simpl in Hf. apply andb_prop in Hf as [Hm Hrest].
    simpl. apply IH; [|exact Hrest]. apply build_step_ranges; assumption. }
  intros Hf. apply (H build_init); [|exact Hf].
  split; [reflexivity | constructor].
Qed.

Lemma ranges_do_not_overlap_witness :
  found_in_order "hi ALICE and bob." build_init
                 [Mention "@alice" "1" None; Mention " @Bob " "2" None] = true
  /\ ranges_in_order
       (offsets (build_loop "hi ALICE and bob."
                            [Mention "@alice" "1" None; Mention " @Bob " "2" None]))
       (lengths (build_loop "hi ALICE and bob."
                            [Mention "@alice" "1" None; Mention " @Bob " "2" None]))
     = true.
Proof.
  split; [vm_compute; reflexivity|].
  apply (ranges_do_not_overlap "hi ALICE and bob."
           [Mention "@alice" "1" None; Mention " @Bob " "2" None]).
  vm_compute. reflexivity.
Defined.

(** ** Where the reported ranges point *)

Lemma drop_empty (n : nat) : drop n EmptyString = EmptyString.
Proof. destruct n; reflexivity. Qed.

Lemma drop_add (a b : nat) (s : string) : drop (a + b) s = drop b (drop a s).
Proof.
  revert s. induction a as [|a IH]; intros s; [reflexivity|].
  destruct s as [|c s]; simpl; [now rewrite drop_empty | apply IH].
Qed.

Lemma drop_append (p s : string) : drop (String.length p) (String.append p s) = s.
Proof. induction p as [|c p IH]; simpl; auto. Qed.

Lemma drop_toLowerCase (n : nat) (s : string) :
  drop n (Js.toLowerCase s) = Js.toLowerCase (drop n s).
Proof.
  revert s. induction n as [|n IH]; intros s; [reflexivity|].
  destruct s as [|c s]; simpl; [reflexivity | apply IH].
Qed.

Lemma substring_drop (k n : nat) (s : string) :
  String.substring k n s = String.substring 0 n (drop k s).
Proof.
  revert s. induction k as [|k IH]; intros s; [reflexivity|].
  destruct s as [|c s]; simpl; [destruct n; reflexivity | apply IH].
Qed.

Lemma substring_all (s : string) : String.substring 0 (String.length s) s = s.
Proof. induction s as [|c s IH]; simpl; [reflexivity | now rewrite IH]. Qed.

Lemma substring_from_drop (s : string) (start : Z) :
  Js.substring_from s start = drop (Js.clamp s start) s.
Proof.
  unfold Js.substring_from.
  assert (H : (Js.clamp s start <= String.length s)%nat)
    by (unfold Js.clamp, Js.len; lia).
  revert H. generalize (Js.clamp s start). intros n. revert s.
  induction n as [|n IH]; intros s H.
  - rewrite Nat.sub_0_r. apply substring_all.
  - destruct s as [|c s]; simpl in *; [lia|]. apply IH. lia.
Qed.

Lemma toLowerCase_append (a b : string) :
  Js.toLowerCase (String.append a b)
  = String.append (Js.toLowerCase a) (Js.toLowerCase b).
Proof. induction a as [|c a IH]; simpl; [reflexivity | now rewrite IH]. Qed.

Lemma prefix_app (a s : string) :
  String.prefix a s = true <-> exists q : string, s = String.append a q.
Proof.
  revert s. induction a as [|x a IH]; intros s.
  - destruct s; simpl; split; eauto.
  - destruct s as [|c s]; simpl.
    + split; [discriminate | intros [q H]; discriminate H].
    + destruct (ascii_dec x c) as [->|Hne].
      * rewrite IH. split; intros [q H]; exists q; [now rewrite H | now injection H].
      * split; [discriminate | intros [q H]; injection H as H1 _; congruence].
Qed.

(** Equal after lower-casing means equal for the comparison without case. *)
Lemma ci_prefix_of_lower (a : string) :
  forall s : string,
    (exists q : string, Js.toLowerCase s = String.append (Js.toLowerCase a) q) ->
    ci_prefix a s = true.
Proof.
  induction a as [|x a IH]; intros s [q H]; [reflexivity|].
  destruct s as [|c s]; simpl in *; [discriminate H|].
  injection H as Hc Hs. unfold Js.ci_eq. rewrite Hc, Ascii.eqb_refl. simpl.
  apply IH. exists q. exact Hs.
Qed.

Lemma ci_prefix_of_prefix (a s : string) :
  String.prefix a s = true -> ci_prefix a s = true.
Proof.
  intros H. apply prefix_app in H as [q ->]. apply ci_prefix_of_lower.
  exists (Js.toLowerCase q). apply toLowerCase_append.
Qed.

Lemma index_prefix (n k : nat) (s1 s2 : string) :
  String.index n s1 s2 = Some k -> String.prefix s1 (drop k s2) = true.
Proof.
  intros H. apply index_correct1 in H. rewrite substring_drop in H.
  apply prefix_correct. exact H.
Qed.

(** A hit of [indexOf] is the position of an occurrence. *)
Lemma indexOf_prefix (s search : string) (pos : Z) :
  Js.indexOf s search pos <> -1 ->
  String.prefix search (drop (Z.to_nat (Js.indexOf s search pos)) s) = true.
Proof.
  unfold Js.indexOf. destruct (String.index _ search s) as [k|] eqn:E; [|congruence].
  intros _. rewrite Nat2Z.id. apply (index_prefix _ _ _ _ E).
Qed.

Lemma trimEnd_idempotent (s : string) : Js.trimEnd (Js.trimEnd s) = Js.trimEnd s.
Proof.
  induction s as [|c s IH]; [reflexivity|]. simpl.
  destruct (Js.trimEnd s) as [|d r] eqn:E.
  - destruct (Js.is_white c) eqn:W; simpl; [reflexivity | now rewrite W].
  - change (Js.trimEnd (String c (String d r)))
      with (match Js.trimEnd (String d r) with
            | EmptyString => if Js.is_white c then EmptyString else String c EmptyString
            | r' => String c r'
            end).
    rewrite IH. reflexivity.
Qed.

(** Trimming the end of a string does nothing to a suffix of a string
    whose end is trimmed. *)
Lemma trimEnd_suffix (p x : string) :
  Js.trimEnd (String.append p x) = String.append p x -> Js.trimEnd x = x.
Proof.
  induction p as [|c p IH]; simpl; [auto|].
  destruct (Js.trimEnd (String.append p x)) as [|d r] eqn:E.
  - destruct (Js.is_white c); intros H; [discriminate H|].
    injection H as H. destruct p; simpl in H; [subst x; reflexivity | discriminate H].
  - intros H. injection H as H. apply IH. exact H.
Qed.

Lemma trimStart_suffix (s : string) :
  exists p : string, s = String.append p (Js.trimStart s).
Proof.
  induction s as [|c s [p IH]]; [exists EmptyString; reflexivity|].
  simpl. destruct (Js.is_white c).
  - exists (String c p). simpl. now rewrite <- IH.
  - exists EmptyString. reflexivity.
Qed.

Lemma strip_ats_suffix (s : string) :
  exists p : string, s = String.append p (Js.strip_ats s).
Proof.
  induction s as [|c s [p IH]]; [exists EmptyString; reflexivity|].
  destruct (Ascii.eqb_spec c "@"%char) as [->|Hne].
  - exists (String "@"%char p). simpl. now rewrite <- IH.
  - exists EmptyString. simpl.
    destruct c as [[] [] [] [] [] [] [] []]; try reflexivity. now elim Hne.
Qed.

Lemma append_assoc (a b c : string) :
  String.append (String.append a b) c = String.append a (String.append b c).
Proof. induction a as [|x a IH]; simpl; [reflexivity | now rewrite IH]. Qed.

Lemma length_append (a b : string) :
  String.length (String.append a b) = (String.length a + String.length b)%nat.
Proof. induction a as [|x a IH]; simpl; [reflexivity | now rewrite IH]. Qed.

(** The name is the end of the trimmed tag: what precedes it are the
    at-signs and the white space after them. *)
Lemma name_ends_raw (m : mention) :
  exists p : string,
    raw_of m = String.append p (name_of m)
    /\ Js.len (raw_of m) - Js.len (name_of m) = Z.of_nat (String.length p).
Proof.
  unfold name_of, Js.trim.
  destruct (strip_ats_suffix (raw_of m)) as [p1 H1].
  destruct (trimStart_suffix (Js.strip_ats (raw_of m))) as [p2 H2].
  set (x := Js.trimStart (Js.strip_ats (raw_of m))) in *.
  assert (Hraw : raw_of m = String.append (String.append p1 p2) x).
  { rewrite append_assoc, <- H2. exact H1. }
  assert (Hx : Js.trimEnd x = x).
  { apply (trimEnd_suffix (String.append p1 p2)). rewrite <- Hraw.
    unfold raw_of, Js.trim. apply trimEnd_idempotent. }
  rewrite Hx. exists (String.append p1 p2). split; [exact Hraw|].
  unfold Js.len. rewrite Hraw at 1. rewrite length_append. lia.
Qed.

(** The result of the backward scan: nothing found and no occurrence at
    all, or the position of an occurrence. *)
Lemma lastIndex_from_spec (search : string) (s : string) :
  forall k found : Z,
    (Js.lastIndex_from k search s found = found
     /\ forall j : nat, String.prefix search (drop j s) = true -> (String.length s < j)%nat)
    \/ (k <= Js.lastIndex_from k search s found
        /\ String.prefix search
             (drop (Z.to_nat (Js.lastIndex_from k search s found - k)) s) = true).
Proof.
  induction s as [|c s IH]; intros k found.
  - change (Js.lastIndex_from k search EmptyString found)
      with (if String.prefix search EmptyString then k else found).
    destruct (String.prefix search EmptyString) eqn:E.
    + right. split; [lia|]. rewrite Z.sub_diag. exact E.
    + left. split; [reflexivity|]. intros j Hj. rewrite drop_empty in Hj. congruence.
  - change (Js.lastIndex_from k search (String c s) found)
      with (Js.lastIndex_from (k + 1) search s
              (if String.prefix search (String c s) then k else found)).
    destruct (IH (k + 1) (if String.prefix search (String c s) then k else found))
      as [[Hr Hno] | [Hle Hp]].
    + rewrite Hr. destruct (String.prefix search (String c s)) eqn:E.
      * right. split; [lia|]. rewrite Z.sub_diag. exact E.
      * left. split; [reflexivity|]. intros [|j] Hj; cbn [drop] in Hj; [congruence|].
        apply Hno in Hj. simpl. lia.
    + right. split; [lia|].
      replace (Z.to_nat (Js.lastIndex_from (k + 1) search s
                           (if String.prefix search (String c s) then k else found) - k))
        with (S (Z.to_nat (Js.lastIndex_from (k + 1) search s
                             (if String.prefix search (String c s) then k else found)
                           - (k + 1)))) by lia.
      exact Hp.
Qed.

Lemma match_literal_ci (lit : string) :
  forall (prev : option ascii) (h : string),
    Js.match_literal lit prev h = true -> ci_prefix lit h = true.
Proof.
  induction lit as [|a lit IH]; intros prev h H; [reflexivity|].
  destruct h as [|c h]; simpl in *; [discriminate H|].
  apply andb_prop in H as [Hc Hl]. rewrite Hc. simpl. apply (IH _ _ Hl).
Qed.

Lemma word_search_from_ci (lit : string) (h : string) :
  forall (k : Z) (prev : option ascii) (r : Z),
    Js.word_search_from k lit prev h = Some r ->
    k <= r /\ ci_prefix lit (drop (Z.to_nat (r - k)) h) = true.
Proof.
  induction h as [|c h IH]; intros k prev r H; simpl in H.
  - destruct (Js.boundary prev EmptyString && Js.match_literal lit prev EmptyString) eqn:E;
      [|discriminate H].
    injection H as <-. apply andb_prop in E as [_ E]. split; [lia|].
    rewrite Z.sub_diag. apply (match_literal_ci _ _ _ E).
  - destruct (Js.boundary prev (String c h) && Js.match_literal lit prev (String c h)) eqn:E.
    + injection H as <-. apply andb_prop in E as [_ E]. split; [lia|].
      rewrite Z.sub_diag. apply (match_literal_ci _ _ _ E).
    + apply IH in H as [Hle Hp]. split; [lia|].
      replace (Z.to_nat (r - k)) with (S (Z.to_nat (r - (k + 1)))) by lia. exact Hp.
Qed.

Lemma drop_all (s : string) : drop (String.length s) s = EmptyString.
Proof. induction s as [|c s IH]; simpl; auto. Qed.

Lemma covers_of_prefix (base name : string) (k : Z) :
  0 <= k ->
  String.prefix name (drop (Z.to_nat k) base) = true ->
  covers base k name = true.
Proof.
  intros Hk H. unfold covers. rewrite (proj2 (Z.leb_le _ _) Hk). simpl.
  apply ci_prefix_of_prefix, H.
Qed.

Lemma strategy1_covers (base : string) (m : mention) (start : Z) (r : Z * Z) :
  hit_covers base (name_of m) r ->
  hit_covers base (name_of m) (strategy1 base (raw_of m) (name_of m) start r).
Proof.
  intros Hr. unfold strategy1.
  destruct (Js.startsWith _ _); [|exact Hr].
  destruct (Z.eqb_spec (Js.indexOf base (raw_of m) start) (-1)) as [E|E]; simpl.
  - rewrite E. unfold hit_covers. simpl. lia.
  - unfold hit_covers. simpl. intros H0.
    destruct (name_ends_raw m) as [p [Hraw Hadj]]. rewrite Hadj.
    split; [lia|]. apply covers_of_prefix; [lia|].
    pose proof (indexOf_prefix base (raw_of m) start E) as Hp.
    apply prefix_app in Hp as [q Hq].
    rewrite Z2Nat.inj_add, Nat2Z.id, drop_add, Hq, Hraw, append_assoc, drop_append by lia.
    apply prefix_app. exists q. reflexivity.
Qed.

Lemma strategy2_covers (base name : string) (start : Z) (r : Z * Z) :
  hit_covers base name r -> hit_covers base name (strategy2 base name start r).
Proof.
  intros Hr. unfold strategy2.
  destruct (fst r =? -1); [|exact Hr].
  unfold hit_covers. simpl. intros H0. split; [lia|]. rewrite Z.add_0_r.
  apply covers_of_prefix; [exact H0|]. apply indexOf_prefix. lia.
Qed.

Lemma strategy3_covers (base name : string) (start : Z) (r : Z * Z) :
  hit_covers base name r -> hit_covers base name (strategy3 base name start r).
Proof.
  intros Hr. unfold strategy3.
  destruct (fst r =? -1); [|exact Hr].
  unfold hit_covers. simpl. intros H0. split; [lia|]. rewrite Z.add_0_r.
  unfold covers. rewrite (proj2 (Z.leb_le _ _) H0). simpl.
  apply ci_prefix_of_lower.
  assert (Hp : String.prefix (Js.toLowerCase name)
                 (drop (Z.to_nat (Js.indexOf (Js.toLowerCase base)
                                             (Js.toLowerCase name) start))
                       (Js.toLowerCase base)) = true)
    by (apply indexOf_prefix; lia).
  rewrite drop_toLowerCase in Hp. apply prefix_app in Hp. exact Hp.
Qed.

Lemma strategy4_covers (base name : string) (start : Z) (r : Z * Z) :
  name <> EmptyString ->
  0 <= start ->
  hit_covers base name r -> hit_covers base name (strategy4 base name start r).
Proof.
  intros Hname Hstart Hr. unfold strategy4.
  destruct (fst r =? -1); [|exact Hr].
  unfold Js.word_match.
  destruct (Js.word_search_from 0 name None _) as [k|] eqn:E; [|exact Hr].
  apply word_search_from_ci in E as [Hk Hp].
  rewrite Z.sub_0_r, substring_from_drop, <- drop_add in Hp.
  unfold hit_covers. simpl. intros _. split; [lia|]. rewrite Z.add_0_r.
  unfold covers. rewrite (proj2 (Z.leb_le 0 (start + k))) by lia. simpl.
  destruct (Z.le_gt_cases start (Js.len base)) as [Hin|Hout].
  - replace (Z.to_nat (start + k)) with (Js.clamp base start + Z.to_nat k)%nat
      by (unfold Js.clamp; lia).
    exact Hp.
  - exfalso.
    replace (Js.clamp base start) with (String.length base) in Hp
      by (unfold Js.clamp, Js.len in *; lia).
    rewrite drop_add, drop_all, drop_empty in Hp.
    destruct name; [now elim Hname | discriminate Hp].
Qed.

Lemma forward_search_covers (base : string) (m : mention) (start : Z) :
  name_of m <> EmptyString ->
  0 <= start ->
  hit_covers base (name_of m) (forward_search base (raw_of m) (name_of m) start).
Proof.
  intros Hname Hstart. unfold forward_search.
  apply strategy4_covers; [assumption | assumption|].
  apply strategy3_covers, strategy2_covers, strategy1_covers.
  unfold hit_covers. simpl. lia.
Qed.

(** A name that occurs in the body is placed on one of its occurrences,
    whichever strategy or fallback finds it. *)
Lemma locate_covers (base : string) (m : mention) (start cur : Z) :
  name_of m <> EmptyString ->
  0 <= start ->
  locatable base m = true ->
  covers base
         (Z.max 0 (fst (locate base (raw_of m) (name_of m) start cur)
                   + snd (locate base (raw_of m) (name_of m) start cur)))
         (name_of m) = true.
Proof.
  intros Hname Hstart Hloc. unfold locate.
  pose proof (forward_search_covers base m start Hname Hstart) as Hf.
  destruct (forward_search base (raw_of m) (name_of m) start) as [idx adj].
  unfold hit_covers in Hf. simpl in Hf.
  destruct (Z.ltb_spec idx 0) as [Hneg|Hpos].
  - unfold Js.lastIndexOf.
    destruct (lastIndex_from_spec (name_of m) base 0 (-1)) as [[_ Hno] | [Hle Hp]].
    + exfalso. unfold locatable in Hloc. apply negb_true_iff, Z.eqb_neq in Hloc.
      pose proof (indexOf_prefix base (name_of m) 0 Hloc) as Hp.
      pose proof (indexOf_hit base (name_of m) 0 Hname Hloc) as [_ H0].
      apply Hno in Hp.
      unfold Js.indexOf in *.
      destruct (String.index (Js.clamp base 0) (name_of m) base) as [k|] eqn:E;
        [|congruence].
      destruct (index_range _ _ _ _ E) as [_ Hlt]. specialize (Hlt Hname).
      rewrite Nat2Z.id in Hp. lia.
    + rewrite Z.sub_0_r in Hp.
      rewrite (proj2 (Z.eqb_neq _ (-1))) by lia. simpl.
      rewrite Z.add_0_r, Z.max_r by lia.
      apply covers_of_prefix; [lia | exact Hp].
  - simpl. destruct (Hf Hpos) as [Hadj Hc]. rewrite Z.max_r by lia. exact Hc.
Qed.

Lemma build_fold_covers (base : string) (ms : list mention) :
  forall (st : build_state) (names : list string),
    0 <= cursor st ->
    Forall2 (fun off name => covers base off name = true) (offsets st) names ->
    forallb (placeable base) ms = true ->
    Forall2 (fun off name => covers base off name = true)
            (offsets (fold_left (build_step base) ms st)) (names ++ names_of ms).
Proof.
  induction ms as [|m ms IH]; intros st names Hcur Hall Hms.
  - simpl. rewrite app_nil_r. exact Hall.
  - simpl in Hms. apply andb_prop in Hms as [Hm Hms].
    simpl fold_left. rewrite names_of_cons. unfold placeable in Hm.
    destruct (String.eqb_spec (name_of m) EmptyString) as [E|E].
    + apply IH; try assumption;
        unfold build_step; rewrite E; simpl; assumption.
    + simpl in Hm. apply andb_prop in Hm as [Hloc Hin].
      assert (Hstart : 0 <= start_of m (cursor st)).
      { unfold start_of, starts_inside in *. destruct (fromIndex m); [|exact Hcur].
        apply Z.leb_le, Hin. }
      pose proof (locate_covers base m _ (cursor st) E Hstart Hloc) as Hc.
      replace (names ++ name_of m :: names_of ms)
        with ((names ++ [name_of m]) ++ names_of ms)
        by (rewrite <- app_assoc; reflexivity).
      apply IH; try assumption; unfold build_step;
        rewrite (proj2 (String.eqb_neq _ _) E);
        destruct (locate base (raw_of m) (name_of m) (start_of m (cursor st)) (cursor st))
          as [idx adj]; simpl in *.
      * pose proof (len_positive _ E). lia.
      * apply Forall2_app; [exact Hall | constructor; [exact Hc | constructor]].
Qed.

(** X11. For a body and tags of ASCII characters: when every mention with
    a non-empty name has a name that occurs in the body and no negative
    fromIndex, every reported offset is the position of an occurrence of
    the name, up to the case of letters: whichever strategy or fallback
    places the mention, the range of the reported length that starts at the
    offset spells the name. (Beyond ASCII the lower-case copy of strategy 3
    can be longer than the body, and an index found in it need not be the
    index of the name in the body.) *)
Theorem ranges_spell_names (base : string) (ms : list mention) :
  ascii_only base = true ->
  ascii_tags ms = true ->
  forallb (placeable base) ms = true ->
  Forall2 (fun off name => covers base off name = true)
          (offsets (build_loop base ms)) (names_of ms).
Proof.
  intros _ _ H.
  apply (build_fold_covers base ms build_init []); [simpl; lia | constructor | exact H].
Qed.

Lemma ranges_spell_names_witness :
  ascii_only "Bob Alice" = true
  /\ ascii_tags [Mention "@Alice" "1" None; Mention "Bob" "2" None] = true
  /\ forallb (placeable "Bob Alice") [Mention "@Alice" "1" None; Mention "Bob" "2" None]
     = true
  /\ Forall2 (fun off name => covers "Bob Alice" off name = true)
             (offsets (build_loop "Bob Alice"
                                  [Mention "@Alice" "1" None; Mention "Bob" "2" None]))
             (names_of [Mention "@Alice" "1" None; Mention "Bob" "2" None]).
Proof.
  split; [vm_compute; reflexivity|].
  split; [vm_compute; reflexivity|].
  split; [vm_compute; reflexivity|].
  apply (ranges_spell_names "Bob Alice"
           [Mention "@Alice" "1" None; Mention "Bob" "2" None]);
    vm_compute; reflexivity.
Defined.

(** ** Mentions found verbatim *)

(** Strategy 1 or 2 finds the mention, strategies 3 and 4 are not tried,
    and the index, adjustment included, is where the name stands. *)
Lemma verbatim_search (base : string) (m : mention) (start : Z) :
  found_verbatim base m start = true ->
  exists idx adj : Z,
    forward_search base (raw_of m) (name_of m) start = (idx, adj)
    /\ 0 <= idx /\ 0 <= adj
    /\ stands_at base (idx + adj) (name_of m) = true.
Proof.
  unfold found_verbatim, forward_search, strategy1. intros H.
  assert (Hlate : forall r : Z * Z,
             0 <= fst r ->
             strategy4 base (name_of m) start (strategy3 base (name_of m) start r) = r).
  { intros r Hr. unfold strategy3, strategy4.
    rewrite (proj2 (Z.eqb_neq (fst r) (-1))) by lia.
    rewrite (proj2 (Z.eqb_neq (fst r) (-1))) by lia. reflexivity. }
  assert (Hname : Js.indexOf base (name_of m) start <> -1 ->
                  exists idx adj : Z,
                    strategy4 base (name_of m) start
                      (strategy3 base (name_of m) start
                         (strategy2 base (name_of m) start (-1, 0))) = (idx, adj)
                    /\ 0 <= idx /\ 0 <= adj
                    /\ stands_at base (idx + adj) (name_of m) = true).
  { intros E. unfold strategy2. simpl.
    destruct (indexOf_sign base (name_of m) start) as [Hs|Hs]; [congruence|].
    rewrite Hlate by exact Hs.
    exists (Js.indexOf base (name_of m) start), 0.
    split; [reflexivity|]. split; [exact Hs|]. split; [lia|].
    unfold stands_at. rewrite Z.add_0_r, (proj2 (Z.leb_le _ _) Hs). simpl.
    apply indexOf_prefix, E. }
  destruct (Js.startsWith (raw_of m) "@").
  - destruct (Z.eqb_spec (Js.indexOf base (raw_of m) start) (-1)) as [E|E].
    + simpl in H. rewrite E. simpl.
      apply Hname. apply negb_true_iff, Z.eqb_neq in H. exact H.
    + cbn [negb]. destruct (indexOf_sign base (raw_of m) start) as [Hs|Hs]; [congruence|].
      unfold strategy2. cbn [fst].
      rewrite (proj2 (Z.eqb_neq _ (-1)) E), Hlate by exact Hs.
      destruct (name_ends_raw m) as [p [Hraw Hadj]].
      exists (Js.indexOf base (raw_of m) start), (Js.len (raw_of m) - Js.len (name_of m)).
      split; [reflexivity|]. split; [exact Hs|]. split; [lia|].
      unfold stands_at. rewrite (proj2 (Z.leb_le _ _)) by lia. simpl.
      pose proof (indexOf_prefix base (raw_of m) start E) as Hp.
      apply prefix_app in Hp as [q Hq].
      rewrite Hadj, Z2Nat.inj_add, Nat2Z.id, drop_add, Hq, Hraw, append_assoc, drop_append
        by lia.
      apply prefix_app. exists q. reflexivity.
  - simpl in H. apply Hname. apply negb_true_iff, Z.eqb_neq in H. exact H.
Qed.

Lemma build_fold_verbatim (base : string) (ms : list mention) :
  forall (st : build_state) (names : list string),
    Forall2 (fun off name => stands_at base off name = true) (offsets st) names ->
    found_exactly base st ms = true ->
    Forall2 (fun off name => stands_at base off name = true)
            (offsets (fold_left (build_step base) ms st)) (names ++ names_of ms).
Proof.
  induction ms as [|m ms IH]; intros st names Hall Hms.
  - simpl. rewrite app_nil_r. exact Hall.
  - cbn [found_exactly] in Hms. apply andb_prop in Hms as [Hm Hms].
    simpl fold_left. rewrite names_of_cons.
    destruct (String.eqb_spec (name_of m) EmptyString) as [E|E].
    + apply IH; [|exact Hms]. unfold build_step. rewrite E. simpl. exact Hall.
    + simpl in Hm.
      destruct (verbatim_search base m _ Hm) as (idx & adj & Hf & Hidx & Hadj & Hst).
      replace (names ++ name_of m :: names_of ms)
        with ((names ++ [name_of m]) ++ names_of ms)
        by (rewrite <- app_assoc; reflexivity).
      apply IH; [|exact Hms].
      unfold build_step. rewrite (proj2 (String.eqb_neq _ _) E).
      unfold locate. rewrite Hf. rewrite (proj2 (Z.ltb_ge idx 0) Hidx). simpl.
      apply Forall2_app; [exact Hall|].
      constructor; [|constructor]. rewrite Z.max_r by lia. exact Hst.
Qed.

(** X15. When every mention with a non-empty name has its tag, at-signs
    included, or else its bare name in the body at or after the position
    where its search starts, every reported offset is the position of the
    name itself: the characters of the body from the offset on, as many as
    the reported length, are the name, character for character. *)
Theorem verbatim_mentions_point_at_names (base : string) (ms : list mention) :
  found_exactly base build_init ms = true ->
  Forall2 (fun off name => stands_at base off name = true)
          (offsets (build_loop base ms)) (names_of ms).
Proof.
  intros H. apply (build_fold_verbatim base ms build_init []); [constructor | exact H].
Qed.

Lemma verbatim_mentions_point_at_names_witness :
  found_exactly "hi @Alice and Bob" build_init
                [Mention "@Alice" "1" None; Mention " Bob " "2" None] = true
  /\ offsets (build_loop "hi @Alice and Bob"
                         [Mention "@Alice" "1" None; Mention " Bob " "2" None])
     = [4; 14]
  /\ Forall2 (fun off name => stands_at "hi @Alice and Bob" off name = true)
             [4; 14] ["Alice"; "Bob"].
Proof.
  split; [vm_compute; reflexivity|].
  split; [vm_compute; reflexivity|].
  apply (verbatim_mentions_point_at_names "hi @Alice and Bob"
           [Mention "@Alice" "1" None; Mention " Bob " "2" None]).
  vm_compute. reflexivity.
Defined.

(** ** When sendMention publishes *)

Section PublishFacts.

Variable JSON_parse : string -> option json.
Variable JSON_stringify : json -> string.

Lemma report_not_ack (pre : list effect) (cb : callback) (err : error) (p : pending) :
  completion_of (report pre cb err) <> ReturnedAck p.
Proof. unfold report. destruct (invoke cb (Some err) None); discriminate. Qed.

Lemma sendMention_ack_iff (e : env) (msg : msg_arg) (threadID : thread_arg)
      (cb_arg : callback_arg) (reply : option string) :
  (exists p : pending,
      completion_of (sendMention JSON_stringify e msg threadID cb_arg reply) = ReturnedAck p)
  <-> publishes e msg threadID = true.
Proof.
  unfold sendMention, publishes.
  destruct (connected e); simpl.
  2:{ split; [|discriminate]. intros [p H].
      destruct cb_arg as [|s|]; [| destruct (String.eqb s EmptyString) |];
        discriminate H. }
  destruct threadID as [|tid]; simpl; [split; [intros [p H]|]; discriminate|].
  destruct (message_of msg) as [m|];
    [|split; [intros [p H]; elim (report_not_ack _ _ _ _ H) | discriminate]].
  unfold send_object.
  destruct (m_attachment m) as [a|].
  { split; [intros [p H]|discriminate].
    destruct (sendMessage_available e);
      [discriminate H | elim (report_not_ack _ _ _ _ H)]. }
  destruct (m_mentions m) as [| | |ms];
    try (simpl; split; [intros [p H]; elim (report_not_ack _ _ _ _ H) | discriminate]).
  destruct (build_loop_entries
              (match m_body m with Some b => b | None => EmptyString end) ms)
    as (_ & _ & _ & _ & _ & _ & Hnull).
  destruct ms as [|m0 ms].
  { simpl. split; [intros [p H]; elim (report_not_ack _ _ _ _ H) | discriminate]. }
  change (mentions_invalid (MentionsArray (m0 :: ms))) with false. cbv iota.
  destruct (buildMentionData (MentionsArray (m0 :: ms)) _) as [d|] eqn:Ed.
  - split; [intros _ | intros _; eexists; reflexivity].
    destruct (names_of (m0 :: ms)); [|reflexivity].
    destruct Hnull as [_ Hn]. specialize (Hn eq_refl). discriminate Hn.
  - split; [intros [p H]; elim (report_not_ack _ _ _ _ H)|].
    destruct Hnull as [Hn _]. rewrite (Hn eq_refl). discriminate.
Qed.

(** X13. A call of sendMention publishes once or never, and the callback,
    replyToMessage and later events have no part in it: it publishes exactly
    when the transport is connected, threadID is no function, and the
    message is a string or an object without attachment whose mentions are
    an array with at least one name that is not empty. A plain string,
    having no mentions, is never published. *)
Theorem publishes_exactly_when (e : env) (msg : msg_arg) (threadID : thread_arg)
        (cb_arg : callback_arg) (reply : option string) (evs : list event) :
  count is_publish
        (all_effects JSON_parse (sendMention JSON_stringify e msg threadID cb_arg reply) evs)
  = (if publishes e msg threadID then 1 else 0)%nat.
Proof.
  destruct (sendMention_shape JSON_stringify e msg threadID cb_arg reply) as [Hq Hack].
  pose proof (sendMention_ack_iff e msg threadID cb_arg reply) as Hiff.
  assert (Hpre : count is_publish
                   (effects (sendMention JSON_stringify e msg threadID cb_arg reply))
                 = 0%nat).
  { apply (count_none _ _ _) with (2 := Hq). now intros []. }
  unfold all_effects. rewrite count_app, Hpre.
  destruct (completion_of (sendMention JSON_stringify e msg threadID cb_arg reply))
    as [err| |p] eqn:Ec.
  - destruct (publishes e msg threadID); [|reflexivity].
    destruct (proj2 Hiff eq_refl) as [p H]. discriminate H.
  - destruct (publishes e msg threadID); [|reflexivity].
    destruct (proj2 Hiff eq_refl) as [p H]. discriminate H.
  - rewrite (proj1 Hiff (ex_intro _ p eq_refl)).
    destruct (Hack p eq_refl) as (tid & m & d & _ & _ & _ & _ & _ & ->).
    match goal with
    | |- context [run _ (publishWithAck _ ?o ?c ?t ?r ?k) _] =>
        destruct (reached_consistent JSON_parse JSON_stringify o c t r k evs)
          as [_ [rest [-> [Hlate _]]]]
    end.
    rewrite count_app.
    assert (count is_publish rest = 0%nat) as ->.
    { apply (count_none _ _ rest) with (2 := Hlate). now intros []. }
    reflexivity.
Qed.


End PublishFacts.

(** ** Names that the body does not contain *)

Lemma ci_contains_of_drop (lit : string) (k : nat) :
  forall s : string, ci_prefix lit (drop k s) = true -> ci_contains lit s = true.
Proof.
  induction k as [|k IH]; intros s H.
  - destruct s; simpl in *; rewrite H; reflexivity.
  - destruct s as [|c s].
    + simpl in *. rewrite H. reflexivity.
    + change (ci_contains lit (String c s))
        with (ci_prefix lit (String c s) || ci_contains lit s).
      rewrite (IH s H). apply orb_true_r.
Qed.

Lemma covers_contains (base name : string) (off : Z) :
  covers base off name = true -> ci_contains name base = true.
Proof.
  unfold covers. intros H. apply andb_prop in H as [_ H].
  apply (ci_contains_of_drop _ _ _ H).
Qed.

(** Without an occurrence, with or without case, every forward strategy
    leaves the index negative. *)
Lemma forward_search_misses (base : string) (m : mention) (start : Z) :
  ci_contains (name_of m) base = false ->
  fst (forward_search base (raw_of m) (name_of m) start) < 0.
Proof.
  intros Hno.
  assert (H123 : hit_covers base (name_of m)
                   (strategy3 base (name_of m) start
                      (strategy2 base (name_of m) start
                         (strategy1 base (raw_of m) (name_of m) start (-1, 0))))).
  { apply strategy3_covers, strategy2_covers, strategy1_covers.
    unfold hit_covers. simpl. lia. }
  assert (H3 : fst (strategy3 base (name_of m) start
                      (strategy2 base (name_of m) start
                         (strategy1 base (raw_of m) (name_of m) start (-1, 0)))) = -1).
  { set (r := strategy3 _ _ _ _) in *.
    assert (Hneg : fst r < 0).
    { destruct (Z.lt_ge_cases (fst r) 0) as [Hlt|Hge]; [exact Hlt|].
      destruct (H123 Hge) as [_ Hc]. apply covers_contains in Hc. congruence. }
    unfold r, strategy3 in *.
    destruct (fst (strategy2 base (name_of m) start
                     (strategy1 base (raw_of m) (name_of m) start (-1, 0))) =? -1) eqn:E2.
    - simpl in *. destruct (indexOf_sign (Js.toLowerCase base)
                              (Js.toLowerCase (name_of m)) start); lia.
    - unfold strategy2 in *.
      destruct (fst (strategy1 base (raw_of m) (name_of m) start (-1, 0)) =? -1) eqn:E1.
      + simpl in *. destruct (indexOf_sign base (name_of m) start); lia.
      + unfold strategy1 in *. destruct (Js.startsWith (raw_of m) "@").
        * destruct (indexOf_sign base (raw_of m) start) as [Hs|Hs].
          -- rewrite Hs in *. simpl in *. discriminate.
          -- destruct (Js.indexOf base (raw_of m) start =? -1); simpl in *; lia.
        * simpl in E1. discriminate. }
  unfold forward_search, strategy4. rewrite H3. simpl.
  unfold Js.word_match.
  destruct (Js.word_search_from 0 (name_of m) None (Js.substring_from base start))
    as [k|] eqn:E; [|rewrite H3; lia].
  exfalso. apply word_search_from_ci in E as [_ Hp].
  rewrite substring_from_drop, <- drop_add in Hp.
  apply ci_contains_of_drop in Hp. congruence.
Qed.

Lemma locate_misses (base : string) (m : mention) (start cur : Z) :
  ci_contains (name_of m) base = false ->
  locate base (raw_of m) (name_of m) start cur = (Z.max cur (Js.len base), 0).
Proof.
  intros Hno. unfold locate.
  pose proof (forward_search_misses base m start Hno) as Hneg.
  destruct (forward_search base (raw_of m) (name_of m) start) as [idx adj].
  simpl in Hneg. rewrite (proj2 (Z.ltb_lt _ _) Hneg).
  unfold Js.lastIndexOf.
  destruct (lastIndex_from_spec (name_of m) base 0 (-1)) as [[-> _] | [_ Hp]];
    [reflexivity|].
  exfalso. apply ci_prefix_of_prefix, ci_contains_of_drop in Hp. congruence.
Qed.

(** X12. For a body and tags of ASCII characters: a mention whose name
    occurs nowhere in the body, in any case of letters, is not an error: it
    is reported with an offset at the end of the body or beyond it (the
    cursor, when that is further), so its range lies outside the text.
    (Beyond ASCII the lower-case copy of the body can hold a name that the
    body does not hold.) *)
Theorem missing_names_land_after_the_body (base : string) (ms : list mention) :
  ascii_only base = true ->
  ascii_tags ms = true ->
  Forall2 (fun off name => ci_contains name base = false -> Js.len base <= off)
          (offsets (build_loop base ms)) (names_of ms).
Proof.
  intros _ _. unfold build_loop.
  assert (H : forall (st : build_state) (names : list string),
             Forall2 (fun off name => ci_contains name base = false -> Js.len base <= off)
                     (offsets st) names ->
             Forall2 (fun off name => ci_contains name base = false -> Js.len base <= off)
                     (offsets (fold_left (build_step base) ms st)) (names ++ names_of ms)).
  { induction ms as [|m ms IH]; intros st names Hall.
    - simpl. rewrite app_nil_r. exact Hall.
    - simpl fold_left. rewrite names_of_cons.
      destruct (String.eqb_spec (name_of m) EmptyString) as [E|E].
      + apply IH. unfold build_step. rewrite E. simpl. exact Hall.
      + replace (names ++ name_of m :: names_of ms)
          with ((names ++ [name_of m]) ++ names_of ms)
          by (rewrite <- app_assoc; reflexivity).
        apply IH. unfold build_step. rewrite (proj2 (String.eqb_neq _ _) E).
        destruct (locate base (raw_of m) (name_of m) (start_of m (cursor st)) (cursor st))
          as [idx adj] eqn:El.
        simpl. apply Forall2_app; [exact Hall|].
        constructor; [|constructor]. intros Hno.
        rewrite (locate_misses base m _ _ Hno) in El. injection El as <- <-. lia. }
  apply (H build_init []). constructor.
Qed.

(** ** Further worked instances *)

Lemma detected_url_shape_witness :
  Uptime.detectPlatformAndURL
    (Uptime.ProcessEnv None None None None None None (Some "bot.up.railway.app")
                       None None None None)
    None
  = Some (Uptime.PlatformInfo "Railway" (Some "https://bot.up.railway.app"))
  /\ "https://bot.up.railway.app" <> EmptyString
  /\ ("Railway" <> "Custom URL" -> Js.startsWith "https://bot.up.railway.app" "http" = true).
Proof.
  split; [reflexivity|].
  apply (detected_url_shape
           (Uptime.ProcessEnv None None None None None None (Some "bot.up.railway.app")
                              None None None None)
           None
           (Uptime.PlatformInfo "Railway" (Some "https://bot.up.railway.app"))
           eq_refl).
Defined.


Lemma string_callback_never_settles_witness :
  throws_on_call (final_callback (ArgString "mid.1") (Some "mid.2")) = true
  /\ count is_settle
           (trace (run demo_parse
                       (publishWithAck demo_stringify [7%nat] JNull "hello" 550
                                       (NotCallable "mid.1"))
                       [Message "/ls_resp" "ACK 550"; Timeout]))
     = 0%nat
  /\ promise (run demo_parse
                  (publishWithAck demo_stringify [7%nat] JNull "hello" 550
                                  (NotCallable "mid.1"))
                  [Message "/ls_resp" "ACK 550"; Timeout])
     = None.
Proof.
  split; [reflexivity|].
  apply (string_callback_never_settles demo_parse demo_stringify [7%nat] JNull "hello" 550
           (NotCallable "mid.1") [Message "/ls_resp" "ACK 550"; Timeout] eq_refl).
Defined.


Lemma missing_names_land_after_the_body_witness :
  ascii_only "hello Bob" = true
  /\ ascii_tags [Mention "@Zed" "1" None; Mention "bob" "2" None] = true
  /\ Forall2 (fun off name => ci_contains name "hello Bob" = false -> 9 <= off)
             (offsets (build_loop "hello Bob"
                                  [Mention "@Zed" "1" None; Mention "bob" "2" None]))
             ["Zed"; "bob"].
Proof.
  split; [vm_compute; reflexivity|].
  split; [vm_compute; reflexivity|].
  apply (missing_names_land_after_the_body "hello Bob"
           [Mention "@Zed" "1" None; Mention "bob" "2" None]);
    vm_compute; reflexivity.
Defined.
